(** * Virtualized table with skeleton rows: the windowed data engine of App.jsx

    The React component [App] of [src/App.jsx] is embedded as a state record
    (one field per [useState] cell plus the queue of outstanding
    [setTimeout] callbacks) and one state transformer per event handler.

    A handler is a closure of the render that created it: what it reads of
    the state is what that render saw, while what it writes goes to the
    current state. Module [Renders] keeps the two apart and lets any number
    of events be handled before a re-render commits. The transformers of
    module [App] are the case in which the render a handler belongs to has
    seen the current state, and [App.step] is an event followed by the
    commit of the re-render it schedules.

    Conventions of the embedding:
    - JavaScript numbers that the component manipulates are integers and are
      modelled in [Z]; a scroll offset is a whole number of pixels.
    - A JavaScript string is a [string] whose characters are code units
      below 256 (every string the component builds is ASCII).
    - The sparse array [data] is a [list (option Row)]: [None] is a hole,
      the length of the list is the array's [length]. *)

From Stdlib Require Import ZArith List String Ascii Bool Lia.
From Stdlib Require Import Permutation Sorted DecimalString DecimalPos DecimalZ.
Import ListNotations.
Open Scope Z_scope.

(** ** JavaScript primitives used by the component *)

Module Js.

(** [String.prototype.toLowerCase] on one code unit below 256: the ASCII
    capitals and the Latin-1 capitals U+00C0..U+00DE (U+00D7 excepted) move
    up by 32; every other code unit is unchanged. *)
Definition lowerChar (c : ascii) : ascii :=
  let n := nat_of_ascii c in
  if ((65 <=? n) && (n <=? 90))%nat then ascii_of_nat (n + 32)
  else if ((192 <=? n) && (n <=? 222) && negb (n =? 215))%nat
       then ascii_of_nat (n + 32)
       else c.

Fixpoint toLowerCase (s : string) : string :=
  match s with
  | EmptyString => EmptyString
  | String c s' => String (lowerChar c) (toLowerCase s')
  end.

(** White space and line terminators below 256: TAB, LF, VT, FF, CR, SP and
    NBSP. *)
Definition isWhiteSpace (c : ascii) : bool :=
  let n := nat_of_ascii c in
  ((9 <=? n) && (n <=? 13) || (n =? 32) || (n =? 160))%nat.

Fixpoint trimStart (s : string) : string :=
  match s with
  | EmptyString => EmptyString
  | String c s' => if isWhiteSpace c then trimStart s' else s
  end.

Fixpoint trimEnd (s : string) : string :=
  match s with
  | EmptyString => EmptyString
  | String c s' =>
      match trimEnd s' with
      | EmptyString => if isWhiteSpace c then EmptyString else String c EmptyString
      | t => String c t
      end
  end.

(** [String.prototype.trim]. *)
Definition trim (s : string) : string := trimEnd (trimStart s).

(** Truthiness of a string: every string but the empty one. *)
Definition truthy (s : string) : bool :=
  match s with EmptyString => false | String _ _ => true end.

Fixpoint startsWith (s q : string) {struct q} : bool :=
  match q, s with
  | EmptyString, _ => true
  | String a q', String b s' => Ascii.eqb a b && startsWith s' q'
  | String _ _, EmptyString => false
  end.

(** [String.prototype.includes]: [q] occurs in [s] at some position. *)
Fixpoint includes (s q : string) : bool :=
  startsWith s q ||
  match s with
  | EmptyString => false
  | String _ s' => includes s' q
  end.

(** Number-to-string conversion of an integer (template literals,
    [toString]). *)
Definition numberToString (n : Z) : string :=
  NilZero.string_of_int (Z.to_int n).

(** [Math.ceil (a / b)] for integers [a] and positive [b]. *)
Definition ceilDiv (a b : Z) : Z := - ((- a) / b).

(** [Math.floor (a / b)] for integers [a] and positive [b]. *)
Definition floorDiv (a b : Z) : Z := a / b.

(** *** Arrays *)

Section Arrays.
Context {A : Type}.

(** Read [arr[i]]: [None] stands for [undefined], which is what a hole
    and an index past the end yield, and a negative index too as long as
    no property of that name has been written. *)
Definition getNat (arr : list (option A)) (n : nat) : option A :=
  match nth_error arr n with
  | Some (Some x) => Some x
  | _ => None
  end.

Definition get (arr : list (option A)) (i : Z) : option A :=
  if i <? 0 then None else getNat arr (Z.to_nat i).

(** Write [arr[n] = x]: past the end the array grows and the positions in
    between stay holes. *)
Fixpoint setNat (n : nat) (x : A) (arr : list (option A)) : list (option A) :=
  match n, arr with
  | O, [] => [Some x]
  | O, _ :: t => Some x :: t
  | S n', [] => None :: setNat n' x []
  | S n', y :: t => y :: setNat n' x t
  end.

(** [arr[i] = x] for an integer [i]. A negative [i] names a property that
    is not an array index: neither the elements nor the length change. The
    property itself is not kept in this model; the component writes at
    [startIndex + i] with [startIndex] 0 or a batch start computed from a
    scroll offset, which is negative only for an offset below [-8000]. *)
Definition set (i : Z) (x : A) (arr : list (option A)) : list (option A) :=
  if i <? 0 then arr else setNat (Z.to_nat i) x arr.

(** The elements present in the array, in index order: what
    [filter(Boolean)] keeps when every element is an object, and what
    [sort] collects before sorting. *)
Fixpoint present (arr : list (option A)) : list A :=
  match arr with
  | [] => []
  | Some x :: t => x :: present t
  | None :: t => present t
  end.

(** Stable insertion of [x] into a list ordered by the comparator [cmp]
    (negative or zero: [x] goes first). *)
Fixpoint insertBy (cmp : A -> A -> Z) (x : A) (l : list A) : list A :=
  match l with
  | [] => [x]
  | y :: t => if cmp x y <=? 0 then x :: l else y :: insertBy cmp x t
  end.

(** [Array.prototype.sort] on a dense array with a consistent comparator:
    the stable sort. *)
Fixpoint sortBy (cmp : A -> A -> Z) (l : list A) : list A :=
  match l with
  | [] => []
  | x :: t => insertBy cmp x (sortBy cmp t)
  end.

(** The comparator lets [a] stand before [b]. *)
Definition before (cmp : A -> A -> Z) (a b : A) : Prop := cmp a b <= 0.

(** A consistent comparator, on the elements satisfying [P]: any two are
    comparable, and the order is transitive. *)
Record Consistent (cmp : A -> A -> Z) (P : A -> Prop) : Prop := {
  cmp_total : forall a b, P a -> P b -> before cmp a b \/ before cmp b a;
  cmp_trans : forall a b c, P a -> P b -> P c ->
                before cmp a b -> before cmp b c -> before cmp a c
}.

(** [Array.prototype.sort] on a sparse array: the present elements are
    collected, sorted with the comparator (which is therefore only ever
    called on present elements), written back from index 0, and the
    remaining positions up to the old length are left as holes. *)
Definition sortSparse (cmp : option A -> option A -> Z)
    (arr : list (option A)) : list (option A) :=
  let xs := sortBy (fun a b => cmp (Some a) (Some b)) (present arr) in
  map Some xs ++ repeat None (List.length arr - List.length xs)%nat.

(** [arr.slice(b, e)] on a dense array: negative bounds count from the
    end, and both are clamped to the array. *)
Definition slice (l : list A) (b e : Z) : list A :=
  let len := Z.of_nat (List.length l) in
  let k := if b <? 0 then Z.max (len + b) 0 else Z.min b len in
  let fin := if e <? 0 then Z.max (len + e) 0 else Z.min e len in
  firstn (Z.to_nat (Z.max (fin - k) 0)) (skipn (Z.to_nat k) l).
End Arrays.

(** The integers [b, b+1, ..., e-1] visited by
    [for (let i = b; i < e; i++)]. *)
Definition range (b e : Z) : list Z :=
  map (fun k => b + Z.of_nat k) (seq 0 (Z.to_nat (e - b))).

End Js.

(** ** The component *)

Module App.

Definition TOTAL_ROWS : Z := 10000.
Definition ROW_HEIGHT : Z := 40.
Definition VIEWPORT_HEIGHT : Z := 600.
Definition BATCH_SIZE : Z := 200.
Definition PREFETCH_THRESHOLD : Z := 20.

(** A row object [{ id, name, email }]. *)
Record Row : Type := mkRow { id : Z; name : string; email : string }.

(** The three column keys passed to [toggleSort]. *)
Inductive Key : Type := KId | KName | KEmail.

Inductive Direction : Type := Asc | Desc.

Record SortConfig : Type := mkSort { key : Key; direction : Direction }.

(** The value of a row property: [id] is a number, the other two strings. *)
Inductive Value : Type := VNum (n : Z) | VStr (s : string).

(** [row[key]]. *)
Definition field (k : Key) (r : Row) : Value :=
  match k with
  | KId => VNum (id r)
  | KName => VStr (name r)
  | KEmail => VStr (email r)
  end.

Definition keyEq (a b : Key) : bool :=
  match a, b with
  | KId, KId | KName, KName | KEmail, KEmail => true
  | _, _ => false
  end.

Definition isAsc (d : Direction) : bool :=
  match d with Asc => true | Desc => false end.

(** The [useState] cells of the component, the queue of [setTimeout]
    callbacks that have not fired yet (each one closed over its
    [startIndex] and [count]; all share the same delay, so they fire in
    registration order), and the history of the fetches that were started. *)
Record State : Type := mkState {
  data : list (option Row);
  loading : bool;
  hasMore : bool;
  scrollTop : Z;
  filter : string;
  sortConfig : SortConfig;
  timers : list (Z * Z);
  started : list (Z * Z)
}.

Definition initialState : State :=
  {| data := []; loading := false; hasMore := true; scrollTop := 0;
     filter := ""; sortConfig := mkSort KId Asc;
     timers := []; started := [] |}.

(** *** fetchBatch *)

(** The row built by the timer callback at offset [i] of a batch. *)
Definition newRow (startIndex i : Z) : Row :=
  let id := startIndex + i + 1 in
  {| id := id;
     name := "User " ++ Js.numberToString id;
     email := "user" ++ Js.numberToString id ++ "@example.com" |}.

(** [Array.from({ length: count }, (_, i) => ...)]. *)
Definition newRows (startIndex count : Z) : list Row :=
  map (fun i => newRow startIndex (Z.of_nat i)) (seq 0 (Z.to_nat count)).

(** [rows.forEach((row, i) => { copy[startIndex + i] = row })], with [i]
    the offset of the first row of [rows]. *)
Fixpoint placeRows (startIndex i : Z) (rows : list Row)
    (copy : list (option Row)) : list (option Row) :=
  match rows with
  | [] => copy
  | row :: rest => placeRows startIndex (i + 1) rest (Js.set (startIndex + i) row copy)
  end.

(** The body of the [setTimeout] callback of [fetchBatch]. *)
Definition fetchDone (startIndex count : Z) (s : State) : State :=
  {| data := placeRows startIndex 0 (newRows startIndex count) (data s);
     loading := false;
     hasMore := if startIndex + count >=? TOTAL_ROWS then false else hasMore s;
     scrollTop := scrollTop s; filter := filter s; sortConfig := sortConfig s;
     timers := timers s; started := started s |}.

(** [fetchBatch(startIndex, count)]: returns at once when [loading] is set;
    otherwise sets it and registers the timer. *)
Definition fetchBatch (startIndex count : Z) (s : State) : State :=
  if loading s then s
  else {| data := data s; loading := true; hasMore := hasMore s;
          scrollTop := scrollTop s; filter := filter s;
          sortConfig := sortConfig s;
          timers := timers s ++ [(startIndex, count)];
          started := started s ++ [(startIndex, count)] |}.

Definition setTimers (pending : list (Z * Z)) (s : State) : State :=
  {| data := data s; loading := loading s; hasMore := hasMore s;
     scrollTop := scrollTop s; filter := filter s;
     sortConfig := sortConfig s; timers := pending; started := started s |}.

(** The oldest pending timer fires: it leaves the queue and its callback
    runs. *)
Definition timerFires (s : State) : State :=
  match timers s with
  | [] => s
  | (startIndex, count) :: rest => fetchDone startIndex count (setTimers rest s)
  end.

(** *** Derived values of a render *)

(** [data.filter(Boolean)]. *)
Definition loadedRows (s : State) : list Row := Js.present (data s).

(** JavaScript [<] on two property values. Both operands always come from
    the same key, so they are two numbers or two strings; strings compare
    by code units. *)
Definition jsLt (a b : Value) : bool :=
  match a, b with
  | VNum x, VNum y => x <? y
  | VStr x, VStr y => String.ltb x y
  | _, _ => false
  end.

(** The comparator given to [arr.sort] in [processedData]. *)
Definition processedCompare (cfg : SortConfig) (a b : Row) : Z :=
  let aVal := field (key cfg) a in
  let bVal := field (key cfg) b in
  if jsLt aVal bVal then (if isAsc (direction cfg) then -1 else 1)
  else if jsLt bVal aVal then (if isAsc (direction cfg) then 1 else -1)
  else 0.

(** The predicate given to [arr.filter] in [processedData]. *)
Definition matches (q : string) (r : Row) : bool :=
  Js.includes (Js.toLowerCase (name r)) q ||
  Js.includes (Js.toLowerCase (email r)) q.

Definition processedData (s : State) : list Row :=
  let arr := loadedRows s in
  let arr :=
    if Js.truthy (Js.trim (filter s))
    then let q := Js.toLowerCase (filter s) in List.filter (matches q) arr
    else arr in
  Js.sortBy (processedCompare (sortConfig s)) arr.

Definition isFiltering (s : State) : bool :=
  Z.of_nat (String.length (Js.trim (filter s))) >? 0.

Definition visibleCount : Z := Js.ceilDiv VIEWPORT_HEIGHT ROW_HEIGHT + 5.

Definition absoluteStart (s : State) : Z := Js.floorDiv (scrollTop s) ROW_HEIGHT.

Definition totalRows (s : State) : Z :=
  if isFiltering s then Z.of_nat (List.length (processedData s)) else TOTAL_ROWS.

(** The window as a function of the scroll offset and the row count. *)
Definition windowStart (scrollOffset total : Z) : Z :=
  Z.min (Js.floorDiv scrollOffset ROW_HEIGHT) (Z.max 0 (total - visibleCount)).

Definition windowEnd (scrollOffset total : Z) : Z :=
  Z.min total (windowStart scrollOffset total + visibleCount).

Definition startIndex (s : State) : Z := windowStart (scrollTop s) (totalRows s).

Definition endIndex (s : State) : Z := windowEnd (scrollTop s) (totalRows s).

Definition spacerTop (s : State) : Z := startIndex s * ROW_HEIGHT.

Definition spacerBottom (s : State) : Z := (totalRows s - endIndex s) * ROW_HEIGHT.

(** The [<tr>] elements pushed to [visibleRows], by kind. *)
Inductive Entry : Type :=
| NoResults
| RowEntry (rowKey : Z) (row : Row)
| Skeleton (index : Z).

Definition visibleRows (s : State) : list Entry :=
  if isFiltering s then
    let slice := Js.slice (processedData s) (startIndex s) (endIndex s) in
    if Z.of_nat (List.length slice) =? 0 then [NoResults]
    else map (fun row => RowEntry (id row) row) slice
  else
    map (fun i => match Js.get (data s) i with
                  | Some row => RowEntry i row
                  | None => Skeleton i
                  end)
        (Js.range (startIndex s) (endIndex s)).

(** *** Event handlers *)

Definition setScrollTop (st : Z) (s : State) : State :=
  {| data := data s; loading := loading s; hasMore := hasMore s;
     scrollTop := st; filter := filter s; sortConfig := sortConfig s;
     timers := timers s; started := started s |}.

(** [!data[i]]: rows are objects, so only a missing element is falsy. *)
Definition isHole (s : State) (i : Z) : bool :=
  match Js.get (data s) i with Some _ => false | None => true end.

Definition nextBatchStart (currentRow : Z) : Z :=
  Js.floorDiv currentRow BATCH_SIZE * BATCH_SIZE + BATCH_SIZE.

(** [handleScroll], with [st] the [scrollTop] of the scroll container. The
    handler reads [isFiltering], [hasMore], [loading] and [data] of the
    render it was created in. *)
Definition handleScroll (st : Z) (s : State) : State :=
  let s' := setScrollTop st s in
  if isFiltering s then s'
  else
    let currentRow := Js.floorDiv st ROW_HEIGHT in
    if hasMore s && negb (loading s) then
      if (nextBatchStart currentRow <? TOTAL_ROWS)
         && (nextBatchStart currentRow - currentRow <=? PREFETCH_THRESHOLD)
         && isHole s (nextBatchStart currentRow)
      then fetchBatch (nextBatchStart currentRow) BATCH_SIZE s'
      else s'
    else s'.

(** The filter input's [onChange]. *)
Definition filterChange (value : string) (s : State) : State :=
  {| data := data s; loading := loading s; hasMore := hasMore s;
     scrollTop := 0; filter := value; sortConfig := sortConfig s;
     timers := timers s; started := started s |}.

(** The updater given to [setSortConfig] in [toggleSort]. *)
Definition nextSortConfig (k : Key) (prev : SortConfig) : SortConfig :=
  let direction :=
    if keyEq (key prev) k && isAsc (direction prev) then Desc else Asc in
  mkSort k direction.

(** [aVal.toString()]. *)
Definition valueToString (v : Value) : string :=
  match v with
  | VNum n => Js.numberToString n
  | VStr s => s
  end.

Section Collation.
(** [String.prototype.localeCompare] in the host's default locale: a
    negative, zero or positive number. The component does not fix the
    locale, so the collation is a parameter. *)
Variable localeCompare : string -> string -> Z.

(** The comparator given to [copy.sort] in [toggleSort]; [dir] is
    [sortConfig.direction] as the handler's closure sees it. *)
Definition toggleCompare (k : Key) (dir : Direction) (a b : option Row) : Z :=
  match a, b with
  | Some a, Some b =>
      match field k a, field k b with
      | VNum aVal, VNum bVal => if isAsc dir then aVal - bVal else bVal - aVal
      | aVal, bVal =>
          if isAsc dir
          then localeCompare (valueToString aVal) (valueToString bVal)
          else localeCompare (valueToString bVal) (valueToString aVal)
      end
  | _, _ => 0
  end.

(** [toggleSort(key)]: the new sort configuration is computed from the
    previous one; the store is sorted with the direction of the render in
    which the handler was created. *)
Definition toggleSort (k : Key) (s : State) : State :=
  {| data := Js.sortSparse (toggleCompare k (direction (sortConfig s))) (data s);
     loading := loading s; hasMore := hasMore s; scrollTop := scrollTop s;
     filter := filter s;
     sortConfig := nextSortConfig k (sortConfig s);
     timers := timers s; started := started s |}.

(** *** Executions *)

(** The events the component reacts to. *)
Inductive Event : Type :=
| Scroll (st : Z)
| FilterInput (value : string)
| HeaderClick (k : Key)
| TimerFires.

(** One event, handled by the handlers of a render that has seen the
    state [s], followed by the commit of the re-render it schedules: the
    next handler sees everything this one wrote ([Renders.step] is the
    general case). *)
Definition step (e : Event) (s : State) : State :=
  match e with
  | Scroll st => handleScroll st s
  | FilterInput v => filterChange v s
  | HeaderClick k => toggleSort k s
  | TimerFires => timerFires s
  end.

(** A sequence of events with a re-render committed after each. *)
Definition run (es : list Event) (s : State) : State :=
  fold_left (fun s e => step e s) es s.
End Collation.

(** The state once the mount effect has run: [fetchBatch(0, TOTAL_ROWS)]. *)
Definition mounted : State := fetchBatch 0 TOTAL_ROWS initialState.

End App.


(** ** Rendering helpers *)

Module Render.
Import App.

(** The three strings [sortIndicator] returns: the empty string, the
    upward triangle and the downward triangle. *)
Inductive Indicator : Type := NoArrow | UpArrow | DownArrow.

(** [sortIndicator(col, config)]. *)
Definition sortIndicator (col : Key) (config : SortConfig) : Indicator :=
  if negb (keyEq (key config) col) then NoArrow
  else if isAsc (direction config) then UpArrow else DownArrow.

(** The [key] attribute of a [<tr>], as the string React makes of it:
    ["no-results"], [row.id] or the index [i] for a row, and [`s-${i}`] for
    a skeleton. *)
Definition entryKey (e : Entry) : string :=
  match e with
  | NoResults => "no-results"
  | RowEntry rowKey _ => Js.numberToString rowKey
  | Skeleton i => "s-" ++ Js.numberToString i
  end.

(** The number of rows of the viewport: [VIEWPORT_HEIGHT / ROW_HEIGHT],
    rounded up. *)
Definition viewportRows : Z := Js.ceilDiv VIEWPORT_HEIGHT ROW_HEIGHT.

End Render.

(** ** Renders and their closures *)

Module Renders.
Import App.

(** [current] is the React state with every update made so far applied
    (together with the timer queue and the history of fetches); [rendered]
    is the state the latest committed render saw, which is what the
    handlers and the effect of that render close over. *)
Record World : Type := mkWorld { current : State; rendered : State }.

(** [fetchBatch(startIndex, count)] called from a closure of the render
    [r]: the guard reads [loading] of [r]; [setLoading(true)] and the timer
    go to the current state [c]. *)
Definition fetchBatch (r : State) (startIndex count : Z) (c : State) : State :=
  if loading r then c
  else {| data := data c; loading := true; hasMore := hasMore c;
          scrollTop := scrollTop c; filter := filter c;
          sortConfig := sortConfig c;
          timers := timers c ++ [(startIndex, count)];
          started := started c ++ [(startIndex, count)] |}.

(** [handleScroll] of the render [r]: [isFiltering], [hasMore], [loading]
    and [data] are those of [r]. *)
Definition handleScroll (r : State) (st : Z) (c : State) : State :=
  let c' := setScrollTop st c in
  if isFiltering r then c'
  else
    let currentRow := Js.floorDiv st ROW_HEIGHT in
    if hasMore r && negb (loading r) then
      if (nextBatchStart currentRow <? TOTAL_ROWS)
         && (nextBatchStart currentRow - currentRow <=? PREFETCH_THRESHOLD)
         && isHole r (nextBatchStart currentRow)
      then fetchBatch r (nextBatchStart currentRow) BATCH_SIZE c'
      else c'
    else c'.

(** What can happen to the component: an event is handled by the handlers
    of the latest committed render, the mount effect of that render runs
    (once, or twice where React replays effects in development), or the
    re-render that the updates scheduled commits. *)
Inductive Action : Type :=
| Handle (e : Event)
| MountEffect
| Commit.

Section Collation.
Variable localeCompare : string -> string -> Z.

(** [toggleSort(key)] of the render [r]: both updaters act on the current
    value of their cell; the comparator reads [sortConfig.direction] of
    [r]. *)
Definition toggleSort (r : State) (k : Key) (c : State) : State :=
  {| data := Js.sortSparse
               (toggleCompare localeCompare k (direction (sortConfig r))) (data c);
     loading := loading c; hasMore := hasMore c; scrollTop := scrollTop c;
     filter := filter c;
     sortConfig := nextSortConfig k (sortConfig c);
     timers := timers c; started := started c |}.

Definition step (a : Action) (w : World) : World :=
  match a with
  | Handle (Scroll st) =>
      mkWorld (handleScroll (rendered w) st (current w)) (rendered w)
  | Handle (FilterInput v) => mkWorld (filterChange v (current w)) (rendered w)
  | Handle (HeaderClick k) =>
      mkWorld (toggleSort (rendered w) k (current w)) (rendered w)
  | Handle TimerFires => mkWorld (timerFires (current w)) (rendered w)
  | MountEffect =>
      mkWorld (fetchBatch (rendered w) 0 TOTAL_ROWS (current w)) (rendered w)
  | Commit => mkWorld (current w) (current w)
  end.

Definition run (acts : list Action) (w : World) : World :=
  fold_left (fun w a => step a w) acts w.

(** The events [es] with a re-render committed after each. *)
Definition sequential (es : list Event) : list Action :=
  flat_map (fun e => [Handle e; Commit]) es.
End Collation.

(** The first render: nothing has been written yet. *)
Definition firstRender : World := mkWorld initialState initialState.

(** The first render once its mount effect has run. *)
Definition mounted : World :=
  mkWorld (fetchBatch initialState 0 TOTAL_ROWS initialState) initialState.

End Renders.

(** ** Vocabulary of the specification *)

Module Spec.
Import App.

(** [q] occurs in [s]. *)
Definition Contains (s q : string) : Prop :=
  exists pre post, s = (pre ++ q ++ post)%string.

(** A row matches the text [q] when its name or its email contains [q],
    letter case aside. *)
Definition Matches (q : string) (r : Row) : Prop :=
  Contains (Js.toLowerCase (name r)) (Js.toLowerCase q) \/
  Contains (Js.toLowerCase (email r)) (Js.toLowerCase q).

(** Order of two property values: numbers numerically, strings by code
    units. *)
Definition valueLe (a b : Value) : Prop :=
  match a, b with
  | VNum x, VNum y => x <= y
  | VStr x, VStr y => String.compare x y <> Gt
  | _, _ => True
  end.

(** [a] may precede [b] in a sequence sorted by [cfg]. *)
Definition ordered (cfg : SortConfig) (a b : Row) : Prop :=
  match direction cfg with
  | Asc => valueLe (field (key cfg) a) (field (key cfg) b)
  | Desc => valueLe (field (key cfg) b) (field (key cfg) a)
  end.

(** The compact sequence of Filtering mode in the specification's words:
    the loaded rows, those kept whose name or email contains the trimmed
    filter text case-insensitively, sorted by the active sort. *)
Definition compactSequence (s : State) : list Row :=
  let q := Js.toLowerCase (Js.trim (filter s)) in
  Js.sortBy (processedCompare (sortConfig s))
            (List.filter (matches q) (loadedRows s)).

(** No two distinct rows of [rows] have the same value under key [k]. *)
Definition distinctKeys (k : Key) (rows : list Row) : Prop :=
  forall a b, In a rows -> In b rows -> field k a = field k b -> a = b.

(** A row as the batch source builds it. *)
Definition fromSource (r : Row) : Prop := r = newRow (id r - 1) 0.

(** At most one timer is pending, and [loading] is set exactly then. *)
Definition SingleFlight (s : State) : Prop :=
  (loading s = true /\ exists t, timers s = [t]) \/
  (loading s = false /\ timers s = []).

(** The only two shapes of a state in an execution: the initial fetch is
    pending and nothing is loaded, or it has completed and every position
    is filled. *)
Definition InitialFetchOnly (s : State) : Prop :=
  started s = [(0, TOTAL_ROWS)] /\
  ((loading s = true /\ timers s = [(0, TOTAL_ROWS)] /\ data s = []) \/
   (loading s = false /\ timers s = [] /\ hasMore s = false /\
    List.length (data s) = Z.to_nat TOTAL_ROWS /\
    List.length (Js.present (data s)) = Z.to_nat TOTAL_ROWS)).

(** The rows of the entries of a rendered window, in display order. *)
Definition displayedRows (entries : list Entry) : list Row :=
  flat_map (fun e => match e with RowEntry _ row => [row] | _ => [] end) entries.

(** What two successive clicks on column [k] would achieve from every
    state, were the rows to end up displayed in ascending order whatever
    the sort state. *)
Definition twoClicksAscend (localeCompare : string -> string -> Z)
    (k : Key) (s : State) : Prop :=
  let s2 := toggleSort localeCompare k (toggleSort localeCompare k s) in
  StronglySorted (ordered (mkSort k Asc)) (displayedRows (visibleRows s2)).

End Spec.

(** ** Sample states *)

Module Samples.
Import App.

(** A collation for the samples: code-unit order. *)
Definition codeUnitCollation (a b : string) : Z :=
  match String.compare a b with Lt => -1 | Eq => 0 | Gt => 1 end.

(** Only the rows at positions [0, 200) are loaded. *)
Definition firstBatchLoaded : State := fetchDone 0 BATCH_SIZE initialState.

(** Fifty rows loaded, ids 1 to 50. *)
Definition fiftyLoaded : State := fetchDone 0 50 initialState.

(** The fifty rows filtered by the text ["user1"]. *)
Definition user1Filter : State := filterChange "user1" fiftyLoaded.

(** Three rows loaded, ids 1 to 3. *)
Definition threeLoaded : State := fetchDone 0 3 initialState.

(** Three rows loaded and a filter text with a trailing space. *)
Definition trailingSpace : State := filterChange "user1 " threeLoaded.

(** Three rows loaded, a filter that matches none of them, and the
    container scrolled down by three rows. *)
Definition noMatch : State :=
  setScrollTop 120 (filterChange "zzz" threeLoaded).

(** Three rows loaded and shown in Filtering mode (the text ["user"]
    matches them all), the sort on [id], ascending. *)
Definition filteredAscending : State := filterChange "user" threeLoaded.

(** The same after one click on the id header: the sort is on [id],
    descending. *)
Definition filteredDescending : State :=
  toggleSort codeUnitCollation KId filteredAscending.

(** The whole dataset has arrived and nothing else has happened. *)
Definition allLoaded : State := timerFires mounted.

End Samples.

(** ** Vocabulary of the further properties *)

Module Props.
Import App.

(** Every scroll event of [es] carries an offset that is not negative. *)
Definition NonNegScrolls (es : list Event) : Prop :=
  Forall (fun e => match e with Scroll st => 0 <= st | _ => True end) es.

(** No event of [es] is a click on a column header. *)
Definition NoHeaderClick (es : list Event) : Prop :=
  Forall (fun e => match e with HeaderClick _ => False | _ => True end) es.

(** A collation that is a total preorder. *)
Definition Collates (localeCompare : string -> string -> Z) : Prop :=
  (forall a b, localeCompare a b <= 0 \/ localeCompare b a <= 0) /\
  (forall a b c, localeCompare a b <= 0 -> localeCompare b c <= 0 ->
                 localeCompare a c <= 0).

(** The text has a character that is not white space. *)
Definition HasInk (s : string) : Prop :=
  exists c, In c (list_ascii_of_string s) /\ Js.isWhiteSpace c = false.

(** The state [s] with another sort configuration. *)
Definition withSort (cfg : SortConfig) (s : State) : State :=
  {| data := data s; loading := loading s; hasMore := hasMore s;
     scrollTop := scrollTop s; filter := filter s; sortConfig := cfg;
     timers := timers s; started := started s |}.



End Props.

(** ** Facts about the JavaScript primitives *)

Module JsFacts.
Import Js.

Section ArrayFacts.
Context {A : Type}.
Implicit Types (arr : list (option A)) (x : A) (n m : nat).

Lemma getNat_setNat_same n x arr : getNat (setNat n x arr) n = Some x.
Proof.
  revert arr; induction n as [|n IH]; intros [|y t]; simpl; try reflexivity.
  - apply (IH []).
  - apply IH.
Qed.

Lemma getNat_nil n : getNat (@nil (option A)) n = None.
Proof. destruct n; reflexivity. Qed.

Lemma getNat_setNat_other n m x arr :
  n <> m -> getNat (setNat n x arr) m = getNat arr m.
Proof.
  revert m arr; induction n as [|n IH]; intros [|m] [|y t] Hnm; simpl;
    try reflexivity; try congruence.
  - now destruct m.
  - change (getNat (setNat n x []) m = None).
    rewrite IH by congruence. apply getNat_nil.
  - change (getNat (setNat n x t) m = getNat t m). apply IH; congruence.
Qed.

Lemma get_set_same i x arr : 0 <= i -> get (set i x arr) i = Some x.
Proof.
  intros Hi. unfold get, set.
  destruct (Z.ltb_spec i 0); [lia|]. apply getNat_setNat_same.
Qed.

Lemma get_set_other i j x arr : i <> j -> get (set i x arr) j = get arr j.
Proof.
  intros Hij. unfold get, set.
  destruct (Z.ltb_spec j 0); [reflexivity|].
  destruct (Z.ltb_spec i 0); [reflexivity|].
  apply getNat_setNat_other. lia.
Qed.

Lemma setNat_length_end x arr :
  setNat (List.length arr) x arr = arr ++ [Some x].
Proof. induction arr as [|y t IH]; simpl; [reflexivity|now rewrite IH]. Qed.

Lemma present_app arr1 arr2 : present (arr1 ++ arr2) = present arr1 ++ present arr2.
Proof.
  induction arr1 as [|[y|] t IH]; simpl; [reflexivity| |assumption].
  now rewrite IH.
Qed.

Lemma present_map_Some (l : list A) : present (map Some l) = l.
Proof. induction l as [|y t IH]; simpl; [reflexivity|now rewrite IH]. Qed.

Lemma present_repeat_None k : present (repeat (@None A) k) = [].
Proof. induction k; simpl; auto. Qed.

Lemma present_length_le arr : (List.length (present arr) <= List.length arr)%nat.
Proof. induction arr as [|[y|] t IH]; simpl; lia. Qed.

Lemma In_present x arr : In x (present arr) <-> In (Some x) arr.
Proof.
  induction arr as [|[y|] t IH]; simpl.
  - tauto.
  - rewrite IH. split; intros [H|H]; auto; left; congruence.
  - rewrite IH. split; [auto|]. intros [H|H]; [discriminate|assumption].
Qed.

Lemma getNat_map_Some (l : list A) n : getNat (map Some l) n = nth_error l n.
Proof.
  unfold getNat. rewrite nth_error_map. now destruct (nth_error l n).
Qed.
End ArrayFacts.

(** *** The stable sort *)

Section SortFacts.
Context {A : Type}.
Variable cmp : A -> A -> Z.
Local Abbreviation before := (Js.before cmp).
Local Abbreviation Consistent := (Js.Consistent cmp).

Lemma insertBy_perm x l : Permutation (x :: l) (insertBy cmp x l).
Proof.
  induction l as [|y t IH]; simpl; [apply Permutation_refl|].
  destruct (cmp x y <=? 0); [apply Permutation_refl|].
  eapply perm_trans; [apply perm_swap|]. now apply perm_skip.
Qed.

Lemma sortBy_perm l : Permutation l (sortBy cmp l).
Proof.
  induction l as [|x t IH]; simpl; [constructor|].
  eapply perm_trans; [apply perm_skip, IH|apply insertBy_perm].
Qed.

Lemma sortBy_length l : List.length (sortBy cmp l) = List.length l.
Proof. symmetry. apply Permutation_length, sortBy_perm. Qed.

Lemma sortBy_In x l : In x (sortBy cmp l) <-> In x l.
Proof.
  split; apply Permutation_in; [apply Permutation_sym|]; apply sortBy_perm.
Qed.

Lemma insertBy_sorted (P : A -> Prop) x l :
  Consistent P -> P x -> Forall P l ->
  StronglySorted before l -> StronglySorted before (insertBy cmp x l).
Proof.
  intros HC Hx HP Hs. induction Hs as [|y t Hs IH Hy]; simpl.
  - repeat constructor.
  - inversion HP as [|? ? Py Pt]; subst.
    destruct (Z.leb_spec (cmp x y) 0) as [Hle|Hgt].
    + constructor; [now constructor|].
      constructor; [exact Hle|].
      rewrite Forall_forall in *. intros z Hz.
      apply (cmp_trans cmp P HC x y z); auto.
    + constructor; [now apply IH|].
      rewrite Forall_forall in *. intros z Hz.
      apply (Permutation_in _ (Permutation_sym (insertBy_perm x t))) in Hz.
      destruct Hz as [<-|Hz]; [|now apply Hy].
      destruct (cmp_total cmp P HC x y Hx Py) as [H|H]; [unfold before in H; lia|exact H].
Qed.

Lemma sortBy_sorted (P : A -> Prop) l :
  Consistent P -> Forall P l -> StronglySorted before (sortBy cmp l).
Proof.
  intros HC HP. induction HP as [|x t Hx Ht IH]; simpl; [constructor|].
  apply (insertBy_sorted P); auto.
  rewrite Forall_forall in *. intros z Hz. apply Ht. now apply sortBy_In.
Qed.

(** Two sorted arrangements of the same elements coincide when ties are
    between equal elements only. *)
Lemma sorted_perm_unique (l1 l2 : list A) :
  (forall a b, In a l1 -> In b l1 -> before a b -> before b a -> a = b) ->
  StronglySorted before l1 -> StronglySorted before l2 ->
  Permutation l1 l2 -> l1 = l2.
Proof.
  revert l2. induction l1 as [|x t IH]; intros l2 Hanti H1 H2 Hp.
  - apply Permutation_nil in Hp. now subst.
  - destruct l2 as [|y u]; [apply Permutation_sym, Permutation_nil in Hp; discriminate|].
    inversion H1 as [|? ? Ht Hx]; inversion H2 as [|? ? Hu Hy]; subst.
    rewrite Forall_forall in Hx, Hy.
    assert (x = y) as ->.
    { assert (Hyin : In y (x :: t))
        by (apply (Permutation_in _ (Permutation_sym Hp)); now left).
      assert (Hxin : In x (y :: u))
        by (apply (Permutation_in _ Hp); now left).
      destruct Hyin as [E|Hyt]; [assumption|].
      destruct Hxin as [E|Hxu]; [now symmetry|].
      apply Hanti; [now left|now right|now apply Hx|now apply Hy]. }
    f_equal. apply IH; auto.
    + intros a b Ha Hb. apply Hanti; now right.
    + eapply Permutation_cons_inv; eassumption.
Qed.

Lemma sortBy_perm_eq (P : A -> Prop) (l1 l2 : list A) :
  Consistent P -> Forall P l1 ->
  (forall a b, In a l1 -> In b l1 -> before a b -> before b a -> a = b) ->
  Permutation l1 l2 -> sortBy cmp l1 = sortBy cmp l2.
Proof.
  intros HC HP Hanti Hp.
  assert (HP2 : Forall P l2).
  { rewrite Forall_forall in *. intros z Hz. apply HP.
    apply (Permutation_in _ (Permutation_sym Hp) Hz). }
  apply sorted_perm_unique.
  - intros a b Ha Hb. apply Hanti; now apply sortBy_In.
  - now apply (sortBy_sorted P).
  - now apply (sortBy_sorted P).
  - eapply perm_trans; [apply Permutation_sym, sortBy_perm|].
    eapply perm_trans; [exact Hp|apply sortBy_perm].
Qed.
End SortFacts.

Lemma sortSparse_length {A : Type} (cmp : option A -> option A -> Z)
    (arr : list (option A)) :
  List.length (Js.sortSparse cmp arr) = List.length arr.
Proof.
  unfold Js.sortSparse.
  rewrite length_app, length_map, repeat_length, sortBy_length.
  pose proof (present_length_le arr). lia.
Qed.

Lemma sortSparse_present {A : Type} (cmp : option A -> option A -> Z)
    (arr : list (option A)) :
  Js.present (Js.sortSparse cmp arr)
  = Js.sortBy (fun a b => cmp (Some a) (Some b)) (Js.present arr).
Proof.
  unfold Js.sortSparse.
  now rewrite present_app, present_map_Some, present_repeat_None, app_nil_r.
Qed.


End JsFacts.

(** ** Facts about strings *)

Module StringFacts.
Import Js Spec.
Local Open Scope string_scope.

Lemma startsWith_spec (s q : string) :
  startsWith s q = true <-> exists post, s = q ++ post.
Proof.
  revert s; induction q as [|a q IH]; intros s; simpl.
  - split; [intros _; now exists s|reflexivity].
  - destruct s as [|b s].
    + split; [discriminate|intros [post H]; discriminate].
    + rewrite andb_true_iff, Ascii.eqb_eq, IH. split.
      * intros [-> [post ->]]. now exists post.
      * intros [post [= -> ->]]. split; [reflexivity|now exists post].
Qed.

Lemma includes_spec (s q : string) :
  includes s q = true <-> Contains s q.
Proof.
  unfold Contains. induction s as [|b s IH].
  - cbn [includes]. rewrite orb_false_r, startsWith_spec. split.
    + intros [post H]. now exists "", post.
    + intros [pre [post H]]. destruct pre; [now exists post|discriminate].
  - cbn [includes]. rewrite orb_true_iff, startsWith_spec, IH. split.
    + intros [[post H]|[pre [post H]]].
      * now exists "", post.
      * exists (String b pre), post. simpl. now rewrite H.
    + intros [pre [post H]]. destruct pre as [|c pre].
      * left. now exists post.
      * right. simpl in H. injection H as _ H. now exists pre, post.
Qed.

Lemma matches_spec (q : string) (r : App.Row) :
  App.matches (toLowerCase q) r = true <-> Matches q r.
Proof.
  unfold App.matches, Matches. now rewrite orb_true_iff, !includes_spec.
Qed.

Lemma truthy_spec (s : string) : truthy s = true <-> s <> "".
Proof. destruct s; simpl; split; congruence. Qed.

Lemma length_pos_truthy (s : string) :
  (Z.of_nat (String.length s) >? 0)%Z = truthy s.
Proof. destruct s; simpl; [reflexivity|]. now destruct (String.length s). Qed.

(** Code-unit order on strings is a total preorder. *)
Lemma compare_refl (x : string) : String.compare x x = Eq.
Proof.
  induction x as [|a x IH]; simpl; [reflexivity|].
  unfold Ascii.compare. now rewrite N.compare_refl.
Qed.

Lemma compare_le_trans (x y z : string) :
  String.compare x y <> Gt -> String.compare y z <> Gt ->
  String.compare x z <> Gt.
Proof.
  revert y z; induction x as [|a x IH]; intros [|b y] [|c z]; simpl;
    try congruence.
  unfold Ascii.compare.
  destruct (N.compare_spec (N_of_ascii a) (N_of_ascii b)) as [E1|L1|G1];
  destruct (N.compare_spec (N_of_ascii b) (N_of_ascii c)) as [E2|L2|G2];
  try congruence.
  - rewrite E1, E2, N.compare_refl. apply IH.
  - intros _ _. rewrite E1. apply N.compare_lt_iff in L2. now rewrite L2.
  - intros _ _. rewrite <- E2. apply N.compare_lt_iff in L1. now rewrite L1.
  - intros _ _. assert (H : (N_of_ascii a < N_of_ascii c)%N) by lia.
    apply N.compare_lt_iff in H. now rewrite H.
Qed.

Lemma compare_le_total (x y : string) :
  String.compare x y <> Gt \/ String.compare y x <> Gt.
Proof.
  rewrite (String.compare_antisym y x).
  destruct (String.compare x y); simpl; [left|left|right]; congruence.
Qed.

Lemma compare_le_antisym (x y : string) :
  String.compare x y <> Gt -> String.compare y x <> Gt -> x = y.
Proof.
  intros H1 H2. rewrite String.compare_antisym in H2.
  destruct (String.compare x y) eqn:E; simpl in *; try congruence.
  now apply String.compare_eq_iff.
Qed.

(** Printing an integer in decimal loses nothing. *)
Lemma numberToString_inj (x y : Z) :
  numberToString x = numberToString y -> x = y.
Proof.
  unfold numberToString. intros H.
  apply DecimalZ.to_int_inj.
  assert (Hnn : forall z, Z.to_int z <> Decimal.Pos Decimal.Nil /\
                          Z.to_int z <> Decimal.Neg Decimal.Nil).
  { intros [|p|p]; simpl; split; try discriminate;
      intros [= E]; now apply DecimalPos.Unsigned.to_uint_nonnil in E. }
  assert (E : Some (Z.to_int x) = Some (Z.to_int y)).
  { rewrite <- (NilZero.isi (Z.to_int x)) by apply Hnn.
    rewrite <- (NilZero.isi (Z.to_int y)) by apply Hnn.
    now rewrite H. }
  now injection E.
Qed.

Lemma append_length (x y : string) :
  String.length (x ++ y) = (String.length x + String.length y)%nat.
Proof. induction x as [|a x IH]; simpl; [reflexivity|now rewrite IH]. Qed.

Lemma append_inj_r (x y p : string) :
  String.length x = String.length y -> x ++ p = y ++ p -> x = y.
Proof.
  revert y; induction x as [|a x IH]; intros [|b y]; simpl; try discriminate.
  - reflexivity.
  - intros [= Hl] [= -> H]. f_equal. now apply IH.
Qed.

End StringFacts.

(** ** The viewport window *)

Module Window.
Import App.

Lemma visibleCount_value : visibleCount = 20.
Proof. reflexivity. Qed.

Lemma absoluteStart_nonneg (s : State) : 0 <= scrollTop s -> 0 <= absoluteStart s.
Proof.
  intros H. unfold absoluteStart, Js.floorDiv, ROW_HEIGHT.
  apply Z.div_pos; lia.
Qed.

Lemma totalRows_nonneg (s : State) : 0 <= totalRows s.
Proof.
  unfold totalRows, TOTAL_ROWS. destruct (isFiltering s); lia.
Qed.

Lemma window_order (scrollOffset total : Z) :
  0 <= scrollOffset -> 0 <= total ->
  0 <= windowStart scrollOffset total <= windowEnd scrollOffset total /\
  windowEnd scrollOffset total <= total.
Proof.
  intros Hs Ht.
  assert (Hq : 0 <= scrollOffset / ROW_HEIGHT)
    by (unfold ROW_HEIGHT; apply Z.div_pos; lia).
  unfold windowEnd, windowStart, Js.floorDiv. rewrite visibleCount_value. lia.
Qed.

(** The same bounds on the values a render derives from its state. *)
Lemma render_window_bounds (s : State) :
  0 <= scrollTop s -> 0 <= startIndex s <= endIndex s /\ endIndex s <= totalRows s.
Proof.
  intros H. unfold startIndex, endIndex.
  apply window_order; [exact H|apply totalRows_nonneg].
Qed.

(** C6. For a non-negative scroll offset and a non-negative row count
    (zero included), the window starts at
    [min (floor (scrollOffset / rowHeight)) (max 0 (totalRows - visibleCount))],
    ends at [min totalRows (startIndex + visibleCount)], and
    [0 <= startIndex <= endIndex <= totalRows]. *)
Theorem window_bounds (scrollOffset total : Z) :
  0 <= scrollOffset -> 0 <= total ->
  windowStart scrollOffset total
    = Z.min (scrollOffset / ROW_HEIGHT) (Z.max 0 (total - visibleCount)) /\
  windowEnd scrollOffset total
    = Z.min total (windowStart scrollOffset total + visibleCount) /\
  0 <= windowStart scrollOffset total
    <= windowEnd scrollOffset total /\
  windowEnd scrollOffset total <= total.
Proof.
  intros Hs Ht. split; [reflexivity|]. split; [reflexivity|].
  now apply window_order.
Qed.

Lemma filterChange_scrollTop (value : string) (s : State) :
  scrollTop (filterChange value s) = 0.
Proof. reflexivity. Qed.

Lemma startIndex_at_top (s : State) : scrollTop s = 0 -> startIndex s = 0.
Proof.
  intros H. unfold startIndex, windowStart, Js.floorDiv. rewrite H.
  rewrite visibleCount_value. change (0 / ROW_HEIGHT) with 0.
  pose proof (totalRows_nonneg s). lia.
Qed.

(** C8. A change of the filter text that switches the mode leaves the
    scroll offset at 0, and the window of the next render is computed from
    offset 0; so it is after a non-empty filter has been cleared. *)
Theorem mode_switch_resets_scroll (value : string) (s : State) :
  isFiltering (filterChange value s) <> isFiltering s ->
  let s' := filterChange value s in
  scrollTop s' = 0 /\
  absoluteStart s' = 0 /\
  startIndex s' = windowStart 0 (totalRows s') /\
  startIndex s' = 0 /\
  (value = ""%string -> isFiltering s' = false /\ totalRows s' = TOTAL_ROWS).
Proof.
  intros _ s'. subst s'.
  split; [apply filterChange_scrollTop|].
  split; [reflexivity|].
  split; [unfold startIndex; now rewrite filterChange_scrollTop|].
  split; [now apply startIndex_at_top|].
  intros ->. split; reflexivity.
Qed.

Lemma slice_nil (b e : Z) : Js.slice (@nil Row) b e = [].
Proof. unfold Js.slice. now rewrite skipn_nil, firstn_nil. Qed.

(** C9. In Filtering mode with an empty compact sequence (and a scroll
    offset that is not negative), the rendered window is the single
    "no results" entry, and both spacers have height 0. *)
Theorem empty_matches_placeholder (s : State) :
  isFiltering s = true -> processedData s = [] -> 0 <= scrollTop s ->
  visibleRows s = [NoResults] /\ spacerTop s = 0 /\ spacerBottom s = 0.
Proof.
  intros Hf He Hs.
  assert (Ht : totalRows s = 0) by (unfold totalRows; now rewrite Hf, He).
  destruct (render_window_bounds s Hs) as [[H0 H1] H2].
  assert (Hstart : startIndex s = 0) by lia.
  assert (Hend : endIndex s = 0) by lia.
  repeat split.
  - unfold visibleRows. now rewrite Hf, He, slice_nil.
  - unfold spacerTop. now rewrite Hstart.
  - unfold spacerBottom. now rewrite Ht, Hend.
Qed.

End Window.

(** ** The batch fetch scheduler *)

Module Scheduler.
Import App Spec JsFacts.

(** *** Writing a batch into the store *)

Lemma placeRows_untouched (rows : list Row) :
  forall a i copy k, k < a + i ->
    Js.get (placeRows a i rows copy) k = Js.get copy k.
Proof.
  induction rows as [|row rest IH]; intros a i copy k Hk; simpl; [reflexivity|].
  rewrite IH by lia. apply get_set_other. lia.
Qed.

Lemma placeRows_get (rows : list Row) :
  forall a i copy j, 0 <= a + i -> (j < List.length rows)%nat ->
    Js.get (placeRows a i rows copy) (a + i + Z.of_nat j) = nth_error rows j.
Proof.
  induction rows as [|row rest IH]; intros a i copy j Hai Hj; simpl in *; [lia|].
  destruct j as [|j]; simpl.
  - rewrite placeRows_untouched by lia.
    rewrite Z.add_0_r. now apply get_set_same.
  - replace (a + i + Z.pos (Pos.of_succ_nat j)) with (a + (i + 1) + Z.of_nat j) by lia.
    apply IH; lia.
Qed.

Lemma placeRows_append (rows : list Row) :
  forall a i copy, 0 <= a + i -> Z.to_nat (a + i) = List.length copy ->
    placeRows a i rows copy = copy ++ map Some rows.
Proof.
  induction rows as [|row rest IH]; intros a i copy Hai Hlen; simpl.
  - now rewrite app_nil_r.
  - rewrite IH.
    + unfold Js.set. destruct (Z.ltb_spec (a + i) 0); [lia|].
      rewrite Hlen, setNat_length_end, <- app_assoc. reflexivity.
    + lia.
    + unfold Js.set. destruct (Z.ltb_spec (a + i) 0); [lia|].
      rewrite Hlen, setNat_length_end, length_app. simpl. lia.
Qed.

Lemma newRows_length (a c : Z) : List.length (newRows a c) = Z.to_nat c.
Proof. unfold newRows. now rewrite length_map, length_seq. Qed.

Lemma newRows_nth (a c : Z) (j : nat) :
  (j < Z.to_nat c)%nat -> nth_error (newRows a c) j = Some (newRow a (Z.of_nat j)).
Proof.
  intros Hj. unfold newRows.
  rewrite nth_error_map, nth_error_seq.
  destruct (Nat.ltb_spec j (Z.to_nat c)); [reflexivity|lia].
Qed.

Lemma fetchDone_get (a c : Z) (s : State) (i : Z) :
  0 <= a -> 0 <= i < c ->
  Js.get (data (fetchDone a c s)) (a + i) = Some (newRow a i).
Proof.
  intros Ha Hi. simpl.
  replace (a + i) with (a + 0 + Z.of_nat (Z.to_nat i)) by lia.
  rewrite placeRows_get.
  - rewrite newRows_nth by lia. now rewrite Z2Nat.id by lia.
  - lia.
  - rewrite newRows_length. lia.
Qed.

(** *** The scroll handler *)

Lemma isHole_spec (s : State) (i : Z) :
  isHole s i = true <-> Js.get (data s) i = None.
Proof. unfold isHole. destruct (Js.get (data s) i); split; congruence. Qed.

(** The conditions under which the handler starts a fetch. *)
Lemma handleScroll_cases (st : Z) (s : State) :
  let r := st / ROW_HEIGHT in
  let nbs := r / BATCH_SIZE * BATCH_SIZE + BATCH_SIZE in
  (isFiltering s = false /\ hasMore s = true /\ loading s = false /\
   nbs < TOTAL_ROWS /\ nbs - r <= PREFETCH_THRESHOLD /\
   Js.get (data s) nbs = None /\
   handleScroll st s = fetchBatch nbs BATCH_SIZE (setScrollTop st s))
  \/
  (~ (isFiltering s = false /\ hasMore s = true /\ loading s = false /\
      nbs < TOTAL_ROWS /\ nbs - r <= PREFETCH_THRESHOLD /\
      Js.get (data s) nbs = None) /\
   handleScroll st s = setScrollTop st s).
Proof.
  intros r nbs. unfold handleScroll, nextBatchStart, Js.floorDiv.
  fold r. fold nbs.
  destruct (isFiltering s); [right; split; [intros (H & _); discriminate|reflexivity]|].
  destruct (hasMore s); simpl;
    [|right; split; [intros (_ & H & _); discriminate|reflexivity]].
  destruct (loading s); simpl;
    [right; split; [intros (_ & _ & H & _); discriminate|reflexivity]|].
  destruct (Z.ltb_spec nbs TOTAL_ROWS) as [Hlt|Hge]; simpl;
    [|right; split; [intros (_ & _ & _ & H & _); lia|reflexivity]].
  destruct (Z.leb_spec (nbs - r) PREFETCH_THRESHOLD) as [Hle|Hgt]; simpl;
    [|right; split; [intros (_ & _ & _ & _ & H & _); lia|reflexivity]].
  destruct (isHole s nbs) eqn:Hh.
  - left. apply isHole_spec in Hh. repeat split; assumption.
  - right. split; [|reflexivity].
    intros (_ & _ & _ & _ & _ & H). apply isHole_spec in H. congruence.
Qed.


(** *** One request *)


(** *** Executions *)

Section Executions.
Variable localeCompare : string -> string -> Z.
Local Abbreviation step := (App.step localeCompare).
Local Abbreviation run := (App.run localeCompare).

Lemma run_snoc (es : list Event) (e : Event) (s : State) :
  run (es ++ [e]) s = step e (run es s).
Proof. unfold App.run. now rewrite fold_left_app. Qed.

(** An invariant of the initial state that every step preserves holds
    after every execution. *)
Lemma run_invariant (P : State -> Prop) (s0 : State) :
  P s0 -> (forall e s, P s -> P (step e s)) -> forall es, P (run es s0).
Proof.
  intros H0 Hstep es. induction es as [|e es IH] using rev_ind; [exact H0|].
  rewrite run_snoc. now apply Hstep.
Qed.

Lemma handleScroll_loading (st : Z) (s : State) :
  loading s = true -> handleScroll st s = setScrollTop st s.
Proof.
  intros Hl. destruct (handleScroll_cases st s) as [(_ & _ & H & _)|[_ E]];
    [congruence|exact E].
Qed.

Lemma step_SingleFlight (e : Event) (s : State) :
  SingleFlight s -> SingleFlight (step e s).
Proof.
  intros Hs. destruct e as [st|v|k|]; simpl.
  - destruct (handleScroll_cases st s) as [(_ & _ & Hl & _ & _ & _ & E)|[_ E]];
      rewrite E; [|exact Hs].
    destruct Hs as [[Hl' _]|[_ Ht]]; [congruence|].
    left. unfold fetchBatch. simpl. rewrite Hl. simpl. rewrite Ht. simpl.
    split; [reflexivity|now eexists].
  - exact Hs.
  - exact Hs.
  - destruct Hs as [[Hl [[a c] Ht]]|[Hl Ht]]; unfold timerFires; rewrite Ht.
    + right. split; reflexivity.
    + right. now split.
Qed.

Lemma mounted_SingleFlight : SingleFlight mounted.
Proof. left. split; [reflexivity|now eexists]. Qed.

(** When a re-render commits after every event, the gate works: after any
    such sequence of scroll events, filter and sort changes and timer
    completions, at most one fetch is outstanding; [loading] is set exactly
    while one is; and a handler that sees it set starts no other fetch. *)
Theorem single_flight (es : list Event) :
  let s := run es mounted in
  (List.length (timers s) <= 1)%nat /\
  (loading s = true <-> timers s <> []) /\
  (loading s = true ->
     (forall st, timers (handleScroll st s) = timers s /\
                 started (handleScroll st s) = started s) /\
     (forall a c, fetchBatch a c s = s)).
Proof.
  intros s.
  assert (Hs : SingleFlight s)
    by (apply run_invariant; [exact mounted_SingleFlight|exact step_SingleFlight]).
  split; [|split].
  - destruct Hs as [[_ [t Ht]]|[_ Ht]]; rewrite Ht; simpl; lia.
  - destruct Hs as [[Hl [t Ht]]|[Hl Ht]]; rewrite Hl, Ht; split; congruence.
  - intros Hl. split.
    + intros st. now rewrite handleScroll_loading.
    + intros a c. unfold fetchBatch. now rewrite Hl.
Qed.

(** *** The initial fetch is the only one *)

Lemma no_holes_getNat {A : Type} (arr : list (option A)) :
  List.length (Js.present arr) = List.length arr ->
  forall j, (j < List.length arr)%nat -> Js.getNat arr j <> None.
Proof.
  induction arr as [|[y|] t IH]; simpl; intros Hlen j Hj.
  - lia.
  - destruct j as [|j]; [discriminate|].
    change (Js.getNat t j <> None). apply IH; lia.
  - pose proof (present_length_le t). lia.
Qed.

Lemma no_holes_get {A : Type} (arr : list (option A)) (n : Z) :
  List.length arr = Z.to_nat n ->
  List.length (Js.present arr) = Z.to_nat n ->
  forall i, 0 <= i < n -> Js.get arr i <> None.
Proof.
  intros Hl Hp i Hi. unfold Js.get.
  destruct (Z.ltb_spec i 0); [lia|].
  apply no_holes_getNat; lia.
Qed.

Lemma step_InitialFetchOnly (e : Event) (s : State) :
  InitialFetchOnly s -> InitialFetchOnly (step e s).
Proof.
  intros [Hst Hs]. destruct e as [st|v|k|]; cbn [App.step].
  - destruct (handleScroll_cases st s) as [(_ & Hm & Hl & _)|[_ E]].
    + destruct Hs as [(Hl' & _)|(_ & _ & Hm' & _)]; congruence.
    + rewrite E. split; assumption.
  - split; assumption.
  - split; [assumption|].
    cbn [toggleSort data loading hasMore timers started].
    destruct Hs as [(Hl & Ht & Hd)|(Hl & Ht & Hm & Hlen & Hp)].
    + left. rewrite Hd. repeat split; assumption.
    + right. rewrite sortSparse_length, sortSparse_present, sortBy_length.
      repeat split; assumption.
  - destruct Hs as [(Hl & Ht & Hd)|(Hl & Ht & Hm & Hlen & Hp)];
      unfold timerFires; rewrite Ht.
    + split; [assumption|]. right.
      cbn [fetchDone setTimers data loading hasMore timers started].
      rewrite Hd, placeRows_append by (cbn [List.length]; lia).
      cbn [app]. rewrite length_map, present_map_Some, newRows_length.
      repeat split.
    + split; [assumption|]. right. repeat split; assumption.
Qed.

Lemma mounted_InitialFetchOnly : InitialFetchOnly mounted.
Proof. split; [reflexivity|]. left. repeat split. Qed.

(** Once the initial fetch has completed no fetch is in flight any more. *)
Lemma step_completed (e : Event) (s : State) :
  InitialFetchOnly s /\ loading s = false ->
  InitialFetchOnly (step e s) /\ loading (step e s) = false.
Proof.
  intros [Hs Hl]. split; [now apply step_InitialFetchOnly|].
  destruct Hs as [_ [(Hl' & _)|(_ & Ht & Hm & _)]]; [congruence|].
  destruct e as [st|v|k|]; cbn [App.step].
  - destruct (handleScroll_cases st s) as [(_ & Hm' & _)|[_ E]]; [congruence|].
    now rewrite E.
  - exact Hl.
  - exact Hl.
  - unfold timerFires. now rewrite Ht.
Qed.

Lemma timerFires_completes (s : State) :
  InitialFetchOnly s -> loading (timerFires s) = false.
Proof.
  intros [_ [(_ & Ht & _)|(Hl & Ht & _)]]; unfold timerFires; rewrite Ht;
    [reflexivity|exact Hl].
Qed.

Lemma run_app (es1 es2 : list Event) (s : State) :
  run (es1 ++ es2) s = run es2 (run es1 s).
Proof. unfold App.run. apply fold_left_app. Qed.

Lemma completed_after_timer (es : list Event) :
  In TimerFires es -> loading (run es mounted) = false.
Proof.
  intros Hin. apply in_split in Hin. destruct Hin as (es1 & es2 & ->).
  rewrite run_app. change (TimerFires :: es2) with ([TimerFires] ++ es2).
  rewrite run_app.
  assert (H1 : InitialFetchOnly (run es1 mounted))
    by (apply run_invariant;
        [exact mounted_InitialFetchOnly|exact step_InitialFetchOnly]).
  apply (run_invariant (fun s => InitialFetchOnly s /\ loading s = false)).
  - split.
    + apply (step_InitialFetchOnly TimerFires _ H1).
    + apply (timerFires_completes _ H1).
  - exact step_completed.
Qed.

(** When a re-render commits after every event, the fetch started by the
    mount effect, [(0, TOTAL_ROWS)], is the only fetch ever started: the
    scroll handler never starts one. While that fetch is pending [loading]
    is set; once it has completed (which it has as soon as its timer has
    fired) every position of [0 .. TOTAL_ROWS-1] is filled and [hasMore] is
    false, and they stay so. *)
Theorem initial_fetch_only (es : list Event) :
  let s := run es mounted in
  started s = [(0, TOTAL_ROWS)] /\
  (forall st, started (handleScroll st s) = [(0, TOTAL_ROWS)]) /\
  (In TimerFires es -> loading s = false) /\
  ((loading s = true /\ timers s = [(0, TOTAL_ROWS)]) \/
   (loading s = false /\ timers s = [] /\ hasMore s = false /\
    (forall i, 0 <= i < TOTAL_ROWS -> Js.get (data s) i <> None) /\
    (forall st, 0 <= st -> nextBatchStart (st / ROW_HEIGHT) < TOTAL_ROWS ->
                isHole s (nextBatchStart (st / ROW_HEIGHT)) = false))).
Proof.
  intros s.
  assert (Hs : InitialFetchOnly s)
    by (apply run_invariant;
        [exact mounted_InitialFetchOnly|exact step_InitialFetchOnly]).
  split; [apply Hs|]. split; [|split].
  - intros st.
    destruct (step_InitialFetchOnly (Scroll st) s Hs) as [H _]. exact H.
  - apply completed_after_timer.
  - destruct Hs as [_ [(Hl & Ht & _)|(Hl & Ht & Hm & Hlen & Hp)]];
      [left; now split|right].
    repeat split; try assumption.
    + now apply no_holes_get.
    + intros st Hst Hlt.
      destruct (isHole s (nextBatchStart (st / ROW_HEIGHT))) eqn:Hh; [|reflexivity].
      exfalso. apply isHole_spec in Hh.
      apply (no_holes_get (data s) TOTAL_ROWS Hlen Hp
               (nextBatchStart (st / ROW_HEIGHT))); [|exact Hh].
      split; [|exact Hlt]. unfold nextBatchStart, Js.floorDiv, BATCH_SIZE.
      assert (0 <= st / ROW_HEIGHT) by (unfold ROW_HEIGHT; apply Z.div_pos; lia).
      assert (0 <= st / ROW_HEIGHT / 200) by (apply Z.div_pos; lia).
      lia.
Qed.

End Executions.

End Scheduler.

(** ** Filtering and sorting *)

Module Sorting.
Import App Spec JsFacts StringFacts.

Lemma filter_perm {A : Type} (f : A -> bool) (l1 l2 : list A) :
  Permutation l1 l2 -> Permutation (List.filter f l1) (List.filter f l2).
Proof.
  induction 1 as [|x l1 l2 _ IH|x y l|l1 l2 l3 _ IH1 _ IH2]; simpl.
  - constructor.
  - destruct (f x); [now constructor|assumption].
  - destruct (f x), (f y); try apply Permutation_refl. apply perm_swap.
  - eapply perm_trans; eassumption.
Qed.

Lemma StronglySorted_equiv {A : Type} (R1 R2 : A -> A -> Prop) (l : list A) :
  (forall a b, R1 a b -> R2 a b) -> StronglySorted R1 l -> StronglySorted R2 l.
Proof.
  intros HR. induction 1 as [|x t Ht IH Hx]; constructor; [assumption|].
  rewrite Forall_forall in *. auto.
Qed.

(** *** The order of [processedData] *)

Lemma string_ltb_lt (x y : string) :
  String.ltb x y = true <-> String.compare x y = Lt.
Proof. unfold String.ltb. destruct (String.compare x y); split; congruence. Qed.

(** The three outcomes of comparing two values of one column. *)
Lemma compare_values (k : Key) (a b : Row) :
  (jsLt (field k a) (field k b) = true /\ jsLt (field k b) (field k a) = false /\
   valueLe (field k a) (field k b) /\ ~ valueLe (field k b) (field k a))
  \/
  (jsLt (field k a) (field k b) = false /\ jsLt (field k b) (field k a) = true /\
   ~ valueLe (field k a) (field k b) /\ valueLe (field k b) (field k a))
  \/
  (jsLt (field k a) (field k b) = false /\ jsLt (field k b) (field k a) = false /\
   field k a = field k b /\
   valueLe (field k a) (field k b) /\ valueLe (field k b) (field k a)).
Proof.
  destruct k; simpl.
  - destruct (Z.ltb_spec (id a) (id b)) as [H1|H1];
      destruct (Z.ltb_spec (id b) (id a)) as [H2|H2].
    + exfalso; lia.
    + left. repeat split; lia.
    + right; left. repeat split; lia.
    + right; right. repeat split; try lia. f_equal; lia.
  - unfold String.ltb. rewrite (String.compare_antisym (name b) (name a)).
    destruct (String.compare (name a) (name b)) eqn:E; simpl;
      [right; right|left|right; left]; repeat split; try congruence.
    apply String.compare_eq_iff in E. now rewrite E.
  - unfold String.ltb. rewrite (String.compare_antisym (email b) (email a)).
    destruct (String.compare (email a) (email b)) eqn:E; simpl;
      [right; right|left|right; left]; repeat split; try congruence.
    apply String.compare_eq_iff in E. now rewrite E.
Qed.

Lemma processedCompare_before (cfg : SortConfig) (a b : Row) :
  Js.before (processedCompare cfg) a b <-> ordered cfg a b.
Proof.
  unfold Js.before, processedCompare, ordered.
  destruct (compare_values (key cfg) a b)
    as [(E1 & E2 & L1 & L2)|[(E1 & E2 & L1 & L2)|(E1 & E2 & _ & L1 & L2)]];
    rewrite E1, ?E2; destruct (direction cfg); simpl; split; intros H;
    try assumption; try lia; try tauto.
Qed.

Lemma valueLe_trans (k : Key) (a b c : Row) :
  valueLe (field k a) (field k b) -> valueLe (field k b) (field k c) ->
  valueLe (field k a) (field k c).
Proof.
  destruct k; simpl; [lia| |]; apply compare_le_trans.
Qed.

Lemma valueLe_total (k : Key) (a b : Row) :
  valueLe (field k a) (field k b) \/ valueLe (field k b) (field k a).
Proof.
  destruct k; simpl; [lia| |]; apply compare_le_total.
Qed.

Lemma valueLe_antisym (k : Key) (a b : Row) :
  valueLe (field k a) (field k b) -> valueLe (field k b) (field k a) ->
  field k a = field k b.
Proof.
  destruct k; simpl; intros H1 H2; f_equal;
    [lia|now apply compare_le_antisym|now apply compare_le_antisym].
Qed.

Lemma processedCompare_consistent (cfg : SortConfig) :
  Js.Consistent (processedCompare cfg) (fun _ => True).
Proof.
  split.
  - intros a b _ _. rewrite !processedCompare_before. unfold ordered.
    destruct (direction cfg); [|rewrite or_comm]; apply valueLe_total.
  - intros a b c _ _ _. rewrite !processedCompare_before. unfold ordered.
    destruct (direction cfg); intros H1 H2; eapply valueLe_trans; eassumption.
Qed.

Lemma Forall_True {A : Type} (l : list A) : Forall (fun _ => True) l.
Proof. induction l; constructor; auto. Qed.

Lemma sortBy_processed_sorted (cfg : SortConfig) (l : list Row) :
  StronglySorted (ordered cfg) (Js.sortBy (processedCompare cfg) l).
Proof.
  apply (StronglySorted_equiv (Js.before (processedCompare cfg))).
  - intros a b. apply processedCompare_before.
  - apply (sortBy_sorted _ (fun _ => True));
      [apply processedCompare_consistent|apply Forall_True].
Qed.

Lemma isFiltering_truthy (s : State) :
  isFiltering s = Js.truthy (Js.trim (filter s)).
Proof. unfold isFiltering. apply length_pos_truthy. Qed.

(** C2 (amended). With a filter text whose trimmed value is not empty, the
    compact sequence consists of the loaded rows (holes left out) whose
    name or email contains, letter case aside, the filter text as typed
    (white space at its ends included: trimming decides the mode only),
    sorted by the active key and direction; its length is the row count
    used for the window. It is the sequence of the specification whenever
    the text has no white space at its ends. *)
Theorem filtering_sequence (s : State) :
  Js.trim (filter s) <> ""%string ->
  isFiltering s = true /\
  (forall r, In r (processedData s) <->
             In (Some r) (data s) /\ Matches (filter s) r) /\
  Permutation (processedData s)
    (List.filter (matches (Js.toLowerCase (filter s))) (loadedRows s)) /\
  StronglySorted (ordered (sortConfig s)) (processedData s) /\
  totalRows s = Z.of_nat (List.length (processedData s)) /\
  (Js.trim (filter s) = filter s -> processedData s = compactSequence s).
Proof.
  intros Hne. apply truthy_spec in Hne.
  assert (Hf : isFiltering s = true) by now rewrite isFiltering_truthy.
  assert (Hp : processedData s
               = Js.sortBy (processedCompare (sortConfig s))
                   (List.filter (matches (Js.toLowerCase (filter s))) (loadedRows s)))
    by (unfold processedData; now rewrite Hne).
  split; [exact Hf|]. split; [|split; [|split; [|split]]].
  - intros r. rewrite Hp, sortBy_In, filter_In, matches_spec.
    unfold loadedRows. now rewrite In_present.
  - rewrite Hp. apply Permutation_sym, sortBy_perm.
  - rewrite Hp. apply sortBy_processed_sorted.
  - unfold totalRows. now rewrite Hf.
  - intros Ht. rewrite Hp. unfold compactSequence. now rewrite Ht.
Qed.

(** C2 (counterexample). The specification's sequence differs from the
    one the component builds as soon as the filter text ends in white
    space: with rows 1 to 3 loaded and the text ["user1 "], row 1 matches
    the trimmed text, but no row contains the text as typed. *)
Lemma trimmed_filter_counterexample :
  Js.trim (filter Samples.trailingSpace) <> ""%string /\
  compactSequence Samples.trailingSpace = [newRow 0 0] /\
  processedData Samples.trailingSpace = [] /\
  processedData Samples.trailingSpace <> compactSequence Samples.trailingSpace.
Proof.
  assert (E1 : compactSequence Samples.trailingSpace = [newRow 0 0])
    by (vm_compute; reflexivity).
  assert (E2 : processedData Samples.trailingSpace = [])
    by (vm_compute; reflexivity).
  split; [vm_compute; discriminate|].
  split; [exact E1|]. split; [exact E2|].
  rewrite E1, E2. discriminate.
Qed.

(** *** Rows of the batch source *)

Lemma newRow_fromSource (a i : Z) : fromSource (newRow a i).
Proof.
  unfold fromSource, newRow. cbn [id].
  replace (a + i + 1 - 1 + 0 + 1) with (a + i + 1) by lia. reflexivity.
Qed.

Lemma fromSource_eq (a b : Row) :
  fromSource a -> fromSource b -> id a = id b -> a = b.
Proof.
  unfold fromSource. intros -> ->. cbn [id newRow]. intros E.
  assert (Hab : id a - 1 = id b - 1) by lia. now rewrite Hab.
Qed.

(** Rows of the batch source that agree on one column are the same row. *)
Lemma source_rows_distinct (k : Key) (rows : list Row) :
  Forall fromSource rows -> distinctKeys k rows.
Proof.
  intros HF a b Ha Hb E. rewrite Forall_forall in HF.
  pose proof (HF a Ha) as Sa. pose proof (HF b Hb) as Sb.
  apply fromSource_eq; try assumption.
  destruct k; cbn [field] in E.
  - now injection E.
  - rewrite Sa, Sb in E. cbn [name newRow] in E. injection E as E.
    apply numberToString_inj in E. lia.
  - rewrite Sa, Sb in E. cbn [email newRow] in E. injection E as E.
    apply append_inj_r in E; [apply numberToString_inj in E; lia|].
    apply (f_equal String.length) in E.
    rewrite !append_length in E. lia.
Qed.

(** *** Header clicks *)

Section Toggle.
Variable localeCompare : string -> string -> Z.
Local Abbreviation toggleSort := (App.toggleSort localeCompare).

Lemma keyEq_spec (a b : Key) : keyEq a b = true <-> a = b.
Proof. destruct a, b; simpl; split; congruence. Qed.

Lemma nextSortConfig_flip (k : Key) : nextSortConfig k (mkSort k Asc) = mkSort k Desc.
Proof. unfold nextSortConfig. simpl. now rewrite (proj2 (keyEq_spec k k) eq_refl). Qed.

Lemma nextSortConfig_reset (k : Key) (prev : SortConfig) :
  prev <> mkSort k Asc -> nextSortConfig k prev = mkSort k Asc.
Proof.
  intros Hne. unfold nextSortConfig.
  destruct (keyEq (key prev) k) eqn:Ek; [|reflexivity].
  apply keyEq_spec in Ek. destruct prev as [k0 [|]]; simpl in *; [|reflexivity].
  subst k0. now contradiction Hne.
Qed.

(** The store after a click: every loaded row is kept, the loaded rows sit
    at the front and the holes behind them. *)
Lemma toggleSort_loaded (k : Key) (s : State) :
  Permutation (loadedRows s) (loadedRows (toggleSort k s)).
Proof.
  unfold loadedRows. cbn [App.toggleSort data].
  rewrite sortSparse_present. apply sortBy_perm.
Qed.

Lemma toggleSort_compacts (k : Key) (s : State) :
  data (toggleSort k s)
  = map Some (loadedRows (toggleSort k s))
    ++ repeat None (List.length (data s) - List.length (loadedRows s))%nat.
Proof.
  unfold loadedRows at 1. cbn [App.toggleSort data].
  rewrite sortSparse_present. unfold Js.sortSparse, loadedRows.
  now rewrite sortBy_length.
Qed.

(** For the numeric column the store is ordered by the direction of the
    render in which the click happened, not by the new one. *)
Lemma toggleSort_by_id_previous_direction (s : State) :
  StronglySorted (ordered (mkSort KId (direction (sortConfig s))))
    (loadedRows (toggleSort KId s)).
Proof.
  unfold loadedRows. cbn [App.toggleSort data]. rewrite sortSparse_present.
  set (cmp := fun a b : Row =>
                toggleCompare localeCompare KId (direction (sortConfig s))
                  (Some a) (Some b)).
  assert (Hb : forall a b, Js.before cmp a b
                 <-> ordered (mkSort KId (direction (sortConfig s))) a b).
  { intros a b. unfold Js.before, cmp, ordered. simpl.
    destruct (direction (sortConfig s)); simpl; lia. }
  apply (StronglySorted_equiv (Js.before cmp)); [intros a b; apply Hb|].
  apply (sortBy_sorted _ (fun _ => True)); [|apply Forall_True].
  split.
  - intros a b _ _. rewrite !Hb. unfold ordered; simpl.
    destruct (direction (sortConfig s)); simpl; lia.
  - intros a b c _ _ _. rewrite !Hb. unfold ordered; simpl.
    destruct (direction (sortConfig s)); simpl; lia.
Qed.

Lemma processedData_perm (s1 s2 : State) :
  filter s2 = filter s1 -> sortConfig s2 = sortConfig s1 ->
  distinctKeys (key (sortConfig s1)) (loadedRows s1) ->
  Permutation (loadedRows s1) (loadedRows s2) ->
  processedData s2 = processedData s1.
Proof.
  intros Hf Hc Hd Hp. unfold processedData. rewrite Hf, Hc. symmetry.
  apply (sortBy_perm_eq _ (fun _ => True)).
  - apply processedCompare_consistent.
  - apply Forall_True.
  - intros a b Ha Hb H1 H2. apply Hd.
    + destruct (Js.truthy _); [apply filter_In in Ha; tauto|assumption].
    + destruct (Js.truthy _); [apply filter_In in Hb; tauto|assumption].
    + apply processedCompare_before in H1, H2. unfold ordered in H1, H2.
      destruct (direction (sortConfig s1)); now apply valueLe_antisym.
  - destruct (Js.truthy _); [now apply filter_perm|assumption].
Qed.

(** In Filtering mode the displayed rows are a stretch of
    [processedData], so they are ordered as it is. *)
Lemma firstn_sorted {A : Type} (R : A -> A -> Prop) (l : list A) (n : nat) :
  StronglySorted R l -> StronglySorted R (firstn n l).
Proof.
  intros Hs. revert n. induction Hs as [|x t Ht IH Hx]; intros [|n]; simpl;
    try constructor; [apply IH|].
  rewrite Forall_forall in *. intros y Hy. apply Hx.
  rewrite <- (firstn_skipn n t). apply in_or_app. now left.
Qed.

Lemma skipn_sorted {A : Type} (R : A -> A -> Prop) (l : list A) (n : nat) :
  StronglySorted R l -> StronglySorted R (skipn n l).
Proof.
  intros Hs. revert n. induction Hs as [|x t Ht IH Hx]; intros [|n]; simpl;
    try constructor; try assumption. apply IH.
Qed.

Lemma displayedRows_rows (l : list Row) :
  displayedRows (map (fun row => RowEntry (id row) row) l) = l.
Proof. induction l as [|x t IH]; simpl; [reflexivity|now rewrite IH]. Qed.

Lemma filtering_window_sorted (R : Row -> Row -> Prop) (s : State) :
  isFiltering s = true -> StronglySorted R (processedData s) ->
  StronglySorted R (displayedRows (visibleRows s)).
Proof.
  intros Hf Hs. unfold visibleRows. rewrite Hf.
  destruct (Z.of_nat (List.length _) =? 0); [constructor|].
  rewrite displayedRows_rows. unfold Js.slice.
  now apply firstn_sorted, skipn_sorted.
Qed.

(** Two clicks on the column that is active and ascending: the sort
    configuration and the sequence of [processedData] are as before. *)
Lemma two_clicks_restore (k : Key) (s : State) :
  sortConfig s = mkSort k Asc ->
  Forall fromSource (loadedRows s) ->
  sortConfig (toggleSort k (toggleSort k s)) = mkSort k Asc /\
  processedData (toggleSort k (toggleSort k s)) = processedData s.
Proof.
  intros Hc Hsrc.
  pose proof (source_rows_distinct k _ Hsrc) as Hd.
  assert (H2 : sortConfig (toggleSort k (toggleSort k s)) = mkSort k Asc).
  { cbn [App.toggleSort sortConfig]. rewrite Hc, nextSortConfig_flip.
    now apply nextSortConfig_reset. }
  split; [exact H2|].
  apply processedData_perm.
  - reflexivity.
  - now rewrite H2, Hc.
  - now rewrite Hc.
  - eapply perm_trans; apply toggleSort_loaded.
Qed.

(** C7 (amended). A click on a column that is the active key with
    direction ascending flips the direction to descending; any other click
    makes that column the key with direction ascending. Hence two clicks in
    a row on column [k] end ascending exactly when they start from [k]
    ascending (from any other sort state they end with [k] descending); in
    that case, for every set of loaded rows of the batch source, the
    filtered and sorted sequence after the two clicks is in ascending order
    by [k] and is the sequence from before the clicks. *)
Theorem two_clicks_from_ascending (k : Key) (s : State) :
  sortConfig s = mkSort k Asc ->
  Forall fromSource (loadedRows s) ->
  let s2 := toggleSort k (toggleSort k s) in
  sortConfig (toggleSort k s) = mkSort k Desc /\
  sortConfig s2 = mkSort k Asc /\
  processedData s2 = processedData s /\
  StronglySorted (ordered (mkSort k Asc)) (processedData s2) /\
  (isFiltering s = true ->
     visibleRows s2 = visibleRows s /\
     StronglySorted (ordered (mkSort k Asc)) (displayedRows (visibleRows s2))) /\
  (forall k' s', sortConfig s' <> mkSort k' Asc ->
     sortConfig (toggleSort k' s') = mkSort k' Asc /\
     sortConfig (toggleSort k' (toggleSort k' s')) = mkSort k' Desc).
Proof.
  intros Hc Hsrc s2.
  assert (H1 : sortConfig (toggleSort k s) = mkSort k Desc)
    by (cbn [App.toggleSort sortConfig]; rewrite Hc; apply nextSortConfig_flip).
  destruct (two_clicks_restore k s Hc Hsrc) as [H2 H3]. fold s2 in H2, H3.
  assert (H4 : StronglySorted (ordered (mkSort k Asc)) (processedData s2))
    by (rewrite H3; unfold processedData; rewrite Hc; apply sortBy_processed_sorted).
  split; [exact H1|]. split; [exact H2|]. split; [exact H3|].
  split; [exact H4|]. split.
  - intros Hf.
    assert (Hv : visibleRows s2 = visibleRows s).
    { unfold visibleRows, startIndex, endIndex, totalRows.
      change (isFiltering s2) with (isFiltering s).
      change (scrollTop s2) with (scrollTop s).
      now rewrite Hf, H3. }
    split; [exact Hv|].
    apply (filtering_window_sorted _ s2); [exact Hf|exact H4].
  - intros k' s' Hne.
    assert (E : sortConfig (toggleSort k' s') = mkSort k' Asc)
      by (cbn [App.toggleSort sortConfig]; now apply nextSortConfig_reset).
    split; [exact E|].
    cbn [App.toggleSort sortConfig] in *. rewrite E. apply nextSortConfig_flip.
Qed.

End Toggle.

(** C7 (counterexample). Three rows shown in Filtering mode with the sort
    on id descending: two clicks on the id header end with id descending,
    and the rows are displayed in the order 3, 2, 1. *)
Lemma two_clicks_counterexample :
  let click := toggleSort Samples.codeUnitCollation KId in
  let s2 := click (click Samples.filteredDescending) in
  isFiltering Samples.filteredDescending = true /\
  sortConfig Samples.filteredDescending = mkSort KId Desc /\
  sortConfig s2 = mkSort KId Desc /\
  map id (displayedRows (visibleRows s2)) = [3; 2; 1] /\
  ~ twoClicksAscend Samples.codeUnitCollation KId Samples.filteredDescending.
Proof.
  intros click s2.
  split; [vm_compute; reflexivity|]. split; [reflexivity|].
  split; [reflexivity|]. split; [vm_compute; reflexivity|].
  assert (E : displayedRows (visibleRows s2) = [newRow 0 2; newRow 0 1; newRow 0 0])
    by (vm_compute; reflexivity).
  subst s2 click. unfold twoClicksAscend. cbv zeta. rewrite E. intros H.
  inversion H as [|? ? _ Hall]; subst.
  inversion Hall as [|? ? Hle _]; subst.
  unfold ordered in Hle. cbn in Hle. lia.
Qed.

(** *** The store after a click, in executions *)

Lemma sortBy_sorted_id {A : Type} (cmp : A -> A -> Z) (l : list A) :
  StronglySorted (Js.before cmp) l -> Js.sortBy cmp l = l.
Proof.
  induction 1 as [|x t Ht IH Hx]; simpl; [reflexivity|].
  rewrite IH. destruct t as [|y u]; [reflexivity|]. simpl.
  inversion Hx as [|? ? Hxy _]; subst. unfold Js.before in Hxy.
  destruct (Z.leb_spec (cmp x y) 0); [reflexivity|lia].
Qed.

Lemma map_seq_sorted {A : Type} (R : A -> A -> Prop) (f : nat -> A) :
  (forall i j, (i < j)%nat -> R (f i) (f j)) ->
  forall n start, StronglySorted R (map f (seq start n)).
Proof.
  intros HR. induction n as [|n IH]; intros start; simpl; constructor.
  - apply IH.
  - rewrite Forall_forall. intros y Hy.
    apply in_map_iff in Hy. destruct Hy as (j & <- & Hj).
    apply in_seq in Hj. apply HR. lia.
Qed.

Lemma newRows_ascending (a c : Z) :
  StronglySorted (fun x y => id x <= id y) (newRows a c).
Proof.
  unfold newRows. apply map_seq_sorted. intros i j Hij. cbn [id newRow]. lia.
Qed.

Lemma allLoaded_data : data Samples.allLoaded = map Some (newRows 0 TOTAL_ROWS).
Proof.
  unfold Samples.allLoaded, timerFires.
  change (timers mounted) with [(0, TOTAL_ROWS)].
  cbn [fetchDone data setTimers].
  change (data mounted) with (@nil (option Row)).
  now rewrite Scheduler.placeRows_append by (cbn [List.length]; lia).
Qed.

(** C3 (the code at an input where it departs from the claim). Once the
    whole dataset has arrived, with the sort on id ascending, a click on
    the id header makes the sort configuration id descending, but the store
    is left exactly as it was, in ascending order of id: its first two rows
    have ids 1 and 2. *)
Theorem click_on_id_keeps_store_ascending (localeCompare : string -> string -> Z) :
  let before := run localeCompare [TimerFires] mounted in
  let after := run localeCompare [TimerFires; HeaderClick KId] mounted in
  sortConfig before = mkSort KId Asc /\
  sortConfig after = mkSort KId Desc /\
  data after = data before /\
  Js.get (data after) 0 = Some (newRow 0 0) /\
  Js.get (data after) 1 = Some (newRow 0 1) /\
  id (newRow 0 0) = 1 /\ id (newRow 0 1) = 2 /\
  ~ ordered (sortConfig after) (newRow 0 0) (newRow 0 1).
Proof.
  intros before after.
  assert (Eb : before = Samples.allLoaded) by reflexivity.
  assert (Ea : after = toggleSort localeCompare KId Samples.allLoaded) by reflexivity.
  assert (Ed : data after = data before).
  { rewrite Ea, Eb. cbn [toggleSort data]. rewrite allLoaded_data.
    unfold Js.sortSparse. rewrite present_map_Some.
    rewrite sortBy_sorted_id.
    - rewrite length_map, Nat.sub_diag. cbn [repeat]. apply app_nil_r.
    - apply (StronglySorted_equiv (fun x y => id x <= id y));
        [|apply newRows_ascending].
      intros x y Hxy. unfold Js.before. cbn [toggleCompare field].
      change (direction (sortConfig Samples.allLoaded)) with Asc.
      cbn [isAsc]. lia. }
  split; [now rewrite Eb|]. split; [now rewrite Ea|]. split; [exact Ed|].
  rewrite Ed, Eb. unfold Samples.allLoaded, timerFires.
  change (timers mounted) with [(0, TOTAL_ROWS)]. cbv beta iota.
  split; [apply (Scheduler.fetchDone_get 0 TOTAL_ROWS _ 0); unfold TOTAL_ROWS; lia|].
  split; [apply (Scheduler.fetchDone_get 0 TOTAL_ROWS _ 1); unfold TOTAL_ROWS; lia|].
  split; [reflexivity|]. split; [reflexivity|].
  rewrite Ea. unfold ordered. cbn. lia.
Qed.

End Sorting.

(** ** Loaded rows in executions *)

Module Executions.
Import App Spec JsFacts.

Lemma In_setNat {A : Type} (n : nat) (x y : A) (arr : list (option A)) :
  In (Some y) (Js.setNat n x arr) -> y = x \/ In (Some y) arr.
Proof.
  revert arr; induction n as [|n IH]; intros [|z t]; simpl.
  - intros [[= ->]|[]]. now left.
  - intros [[= ->]|H]; [now left|right; now right].
  - intros [H|H]; [discriminate|]. destruct (IH [] H) as [E|[]]. now left.
  - intros [H|H]; [right; now left|].
    destruct (IH t H) as [E|Ht]; [now left|right; now right].
Qed.

Lemma In_placeRows (rows : list Row) :
  forall a i copy y, In (Some y) (placeRows a i rows copy) ->
    In y rows \/ In (Some y) copy.
Proof.
  induction rows as [|row rest IH]; intros a i copy y; simpl; [now right|].
  intros H. destruct (IH _ _ _ _ H) as [Hr|Hc]; [left; now right|].
  unfold Js.set in Hc. destruct (a + i <? 0); [now right|].
  destruct (In_setNat _ _ _ _ Hc) as [->|Hc']; [left; now left|now right].
Qed.

Lemma newRows_fromSource (a c : Z) : Forall fromSource (newRows a c).
Proof.
  unfold newRows. rewrite Forall_forall. intros r Hr.
  apply in_map_iff in Hr. destruct Hr as (j & <- & _).
  apply Sorting.newRow_fromSource.
Qed.

Section Source.
Variable localeCompare : string -> string -> Z.

Lemma step_source (e : Event) (s : State) :
  Forall fromSource (loadedRows s) ->
  Forall fromSource (loadedRows (step localeCompare e s)).
Proof.
  intros Hs. destruct e as [st|v|k|]; cbn [step].
  - replace (loadedRows (handleScroll st s)) with (loadedRows s); [exact Hs|].
    unfold loadedRows.
    destruct (Scheduler.handleScroll_cases st s) as [(_ & _ & Hl & _ & _ & _ & E)|[_ E]];
      rewrite E; [|reflexivity].
    unfold fetchBatch. cbn [loading setScrollTop]. now rewrite Hl.
  - exact Hs.
  - rewrite Forall_forall in *. intros r Hr. apply Hs.
    apply (Permutation_in _
             (Permutation_sym (Sorting.toggleSort_loaded localeCompare k s))).
    exact Hr.
  - unfold timerFires. destruct (timers s) as [|[a c] rest]; [exact Hs|].
    rewrite Forall_forall in *. intros r Hr.
    unfold loadedRows in Hr. cbn [fetchDone data setTimers] in Hr.
    apply In_present in Hr. apply In_placeRows in Hr.
    destruct Hr as [Hr|Hr].
    + pose proof (newRows_fromSource a c) as HF.
      rewrite Forall_forall in HF. now apply HF.
    + apply Hs. unfold loadedRows. now apply In_present.
Qed.

(** Every row ever loaded is a row of the batch source. *)
Lemma loaded_rows_fromSource (es : list Event) :
  Forall fromSource (loadedRows (run localeCompare es mounted)).
Proof.
  apply (Scheduler.run_invariant localeCompare
           (fun s => Forall fromSource (loadedRows s))).
  - constructor.
  - exact step_source.
Qed.

(** In an execution, two clicks on the column that is active and
    ascending give back the sequence from before the clicks. *)
Lemma two_clicks_in_executions (es : list Event) (k : Key) :
  let s := run localeCompare es mounted in
  sortConfig s = mkSort k Asc ->
  processedData (toggleSort localeCompare k (toggleSort localeCompare k s))
  = processedData s.
Proof.
  intros s Hc.
  apply (Sorting.two_clicks_restore localeCompare k s Hc).
  apply loaded_rows_fromSource.
Qed.

End Source.

End Executions.

(** ** The theorems at sample states *)

Module Witnesses.
Import App Spec Samples.


(** C2. Fifty rows and the filter ["user1"]: the rows with ids 1 and 10 to 19,
    eleven in all. *)
Lemma filtering_sequence_witness :
  Js.trim (filter user1Filter) <> ""%string /\
  map id (processedData user1Filter) = [1; 10; 11; 12; 13; 14; 15; 16; 17; 18; 19] /\
  totalRows user1Filter = Z.of_nat (List.length (processedData user1Filter)) /\
  totalRows user1Filter = 11 /\
  processedData user1Filter = compactSequence user1Filter.
Proof.
  assert (Hne : Js.trim (filter user1Filter) <> ""%string)
    by (vm_compute; discriminate).
  destruct (Sorting.filtering_sequence user1Filter Hne)
    as (_ & _ & _ & _ & Ht & Hc).
  split; [exact Hne|]. split; [vm_compute; reflexivity|].
  split; [exact Ht|]. split; [vm_compute; reflexivity|].
  apply Hc. vm_compute. reflexivity.
Defined.


(** C6. An empty table, and a scroll offset near the end of the full one. *)
Lemma window_bounds_witness :
  (0 <= windowStart 0 0 <= windowEnd 0 0 /\ windowEnd 0 0 <= 0) /\
  (0 <= windowStart 399990 TOTAL_ROWS <= windowEnd 399990 TOTAL_ROWS /\
   windowEnd 399990 TOTAL_ROWS <= TOTAL_ROWS).
Proof.
  split.
  - destruct (Window.window_bounds 0 0 ltac:(lia) ltac:(lia)) as (_ & _ & H).
    exact H.
  - destruct (Window.window_bounds 399990 TOTAL_ROWS ltac:(lia) ltac:(unfold TOTAL_ROWS; lia))
      as (_ & _ & H).
    exact H.
Defined.

(** C7. Three rows shown in Filtering mode, sorted on id ascending, and
    two clicks on the id header. *)
Lemma two_clicks_witness :
  let click := toggleSort codeUnitCollation KId in
  sortConfig filteredAscending = mkSort KId Asc /\
  Forall fromSource (loadedRows filteredAscending) /\
  sortConfig (click (click filteredAscending)) = mkSort KId Asc /\
  processedData (click (click filteredAscending)) = processedData filteredAscending /\
  map id (displayedRows (visibleRows (click (click filteredAscending)))) = [1; 2; 3].
Proof.
  intros click.
  assert (Hs : Forall fromSource (loadedRows filteredAscending))
    by (vm_compute; repeat constructor).
  split; [reflexivity|]. split; [exact Hs|].
  destruct (Sorting.two_clicks_from_ascending codeUnitCollation KId
              filteredAscending eq_refl Hs) as (_ & H2 & H3 & _ & Hv & _).
  split; [exact H2|]. split; [exact H3|].
  destruct (Hv ltac:(vm_compute; reflexivity)) as [E _].
  subst click. rewrite E. vm_compute. reflexivity.
Defined.

(** C8. Clearing the filter ["zzz"] while scrolled down by three rows. *)
Lemma mode_switch_witness :
  isFiltering (filterChange "" noMatch) <> isFiltering noMatch /\
  scrollTop noMatch = 120 /\
  scrollTop (filterChange "" noMatch) = 0 /\
  startIndex (filterChange "" noMatch) = 0 /\
  isFiltering (filterChange "" noMatch) = false.
Proof.
  assert (Hne : isFiltering (filterChange "" noMatch) <> isFiltering noMatch)
    by (vm_compute; discriminate).
  destruct (Window.mode_switch_resets_scroll "" noMatch Hne)
    as (H1 & _ & _ & H2 & H3).
  split; [exact Hne|]. split; [reflexivity|]. split; [exact H1|].
  split; [exact H2|]. apply (H3 eq_refl).
Defined.

(** C9. The filter ["zzz"] matches none of the three rows. *)
Lemma empty_matches_witness :
  isFiltering noMatch = true /\ processedData noMatch = [] /\
  0 <= scrollTop noMatch /\
  visibleRows noMatch = [NoResults] /\
  spacerTop noMatch = 0 /\ spacerBottom noMatch = 0.
Proof.
  assert (H1 : isFiltering noMatch = true) by (vm_compute; reflexivity).
  assert (H2 : processedData noMatch = []) by (vm_compute; reflexivity).
  assert (H3 : 0 <= scrollTop noMatch) by (vm_compute; discriminate).
  split; [exact H1|]. split; [exact H2|]. split; [exact H3|].
  apply (Window.empty_matches_placeholder noMatch H1 H2 H3).
Defined.

End Witnesses.

(** ** Handlers as closures of a render *)

Module RendersFacts.
Import App Samples.

Section Closures.
Variable localeCompare : string -> string -> Z.
Local Abbreviation rstep := (Renders.step localeCompare).
Local Abbreviation rrun := (Renders.run localeCompare).

(** A handler whose render has seen the current state is the transformer
    of module [App]. *)
Lemma fetchBatch_same (a c : Z) (s : State) :
  Renders.fetchBatch s a c s = fetchBatch a c s.
Proof. reflexivity. Qed.

Lemma handleScroll_same (st : Z) (s : State) :
  Renders.handleScroll s st s = handleScroll st s.
Proof. reflexivity. Qed.

Lemma toggleSort_same (k : Key) (s : State) :
  Renders.toggleSort localeCompare s k s = toggleSort localeCompare k s.
Proof. reflexivity. Qed.

(** An event followed by a commit is a step of [App.step]. *)
Lemma step_then_commit (e : Event) (s : State) :
  rstep Renders.Commit (rstep (Renders.Handle e) (Renders.mkWorld s s))
  = Renders.mkWorld (step localeCompare e s) (step localeCompare e s).
Proof. destruct e; reflexivity. Qed.

(** The executions of [App.run] are the executions in which a re-render
    commits after every event. *)
Lemma sequential_run (es : list Event) (s : State) :
  rrun (Renders.sequential es) (Renders.mkWorld s s)
  = Renders.mkWorld (run localeCompare es s) (run localeCompare es s).
Proof.
  revert s. induction es as [|e es IH]; intros s; [reflexivity|].
  cbn [Renders.sequential flat_map app]. unfold Renders.run. cbn [fold_left].
  fold (Renders.run localeCompare). rewrite step_then_commit.
  apply (IH (step localeCompare e s)).
Qed.

Lemma sequential_from_mount (es : list Event) :
  rrun (Renders.Commit :: Renders.sequential es) Renders.mounted
  = Renders.mkWorld (run localeCompare es mounted) (run localeCompare es mounted).
Proof. exact (sequential_run es mounted). Qed.

(** C5 (the code at inputs where it departs from the claim). The guard of
    [fetchBatch] and of [handleScroll] reads the [loading] of the render
    the handler belongs to. After the mount effect has set [loading], the
    first render still holds [loading = false]: a scroll to row 185 handled
    before the re-render commits starts the fetch of [(200, 200)] while the
    fetch of [(0, TOTAL_ROWS)] is pending, so two fetches are in flight;
    when the first of them completes [loading] is cleared although the
    second is still pending. Likewise two scroll events handled by one
    render, with the first batch loaded, both start the fetch of
    [(200, 200)]. *)
Theorem two_fetches_in_flight :
  let early := rrun [Renders.Handle (Scroll 7400)] Renders.mounted in
  let later := rrun [Renders.Handle (Scroll 7400); Renders.Commit;
                     Renders.Handle TimerFires; Renders.Commit]
                 Renders.mounted in
  let twice := rrun [Renders.Handle (Scroll 7400); Renders.Handle (Scroll 7400)]
                 (Renders.mkWorld firstBatchLoaded firstBatchLoaded) in
  loading (Renders.current Renders.mounted) = true /\
  loading (Renders.rendered Renders.mounted) = false /\
  timers (Renders.current Renders.mounted) = [(0, TOTAL_ROWS)] /\
  timers (Renders.current early) = [(0, TOTAL_ROWS); (200, 200)] /\
  loading (Renders.current later) = false /\
  timers (Renders.current later) = [(200, 200)] /\
  timers (Renders.current twice) = [(200, 200); (200, 200)].
Proof.
  intros early later twice.
  split; [reflexivity|]. split; [reflexivity|]. split; [reflexivity|].
  split; [reflexivity|]. split; [reflexivity|]. split; [reflexivity|].
  vm_compute. reflexivity.
Qed.

(** C10 (the code at inputs where it departs from the claim). The fetch of
    the mount effect is not the only one an execution can start: a scroll
    to row 185 handled by the first render, whose [loading] is false,
    starts the fetch of [(200, 200)] while the initial fetch is pending,
    and both complete; and where the mount effect of the first render runs
    twice, the whole dataset is fetched twice. *)
Theorem scroll_starts_second_fetch :
  let early := rrun [Renders.Handle (Scroll 7400)] Renders.mounted in
  let finished := rrun [Renders.Handle (Scroll 7400); Renders.Commit;
                        Renders.Handle TimerFires; Renders.Commit;
                        Renders.Handle TimerFires; Renders.Commit]
                    Renders.mounted in
  let replayed := rrun [Renders.MountEffect; Renders.MountEffect]
                    Renders.firstRender in
  started (Renders.current Renders.mounted) = [(0, TOTAL_ROWS)] /\
  started (Renders.current early) = [(0, TOTAL_ROWS); (200, 200)] /\
  started (Renders.current finished) = [(0, TOTAL_ROWS); (200, 200)] /\
  timers (Renders.current finished) = [] /\
  started (Renders.current replayed) = [(0, TOTAL_ROWS); (0, TOTAL_ROWS)] /\
  timers (Renders.current replayed) = [(0, TOTAL_ROWS); (0, TOTAL_ROWS)].
Proof.
  intros early finished replayed.
  split; [reflexivity|]. split; [reflexivity|]. split; [reflexivity|].
  split; [reflexivity|]. split; reflexivity.
Qed.

End Closures.

End RendersFacts.

(** ** More on the window *)

Module WindowMore.
Import App Render Props.

Lemma nth_error_slice {A : Type} (l : list A) (b e : Z) (j : nat) :
  0 <= b -> b <= e -> e <= Z.of_nat (List.length l) ->
  (Z.of_nat j < e - b) ->
  nth_error (Js.slice l b e) j = nth_error l (Z.to_nat b + j).
Proof.
  intros Hb Hbe He Hj. unfold Js.slice.
  destruct (Z.ltb_spec b 0); [lia|]. destruct (Z.ltb_spec e 0); [lia|].
  rewrite !Z.min_l by lia. rewrite Z.max_l by lia.
  rewrite nth_error_firstn.
  destruct (Nat.ltb_spec j (Z.to_nat (e - b))); [|lia].
  apply nth_error_skipn.
Qed.

Lemma length_slice {A : Type} (l : list A) (b e : Z) :
  0 <= b -> b <= e -> e <= Z.of_nat (List.length l) ->
  List.length (Js.slice l b e) = Z.to_nat (e - b).
Proof.
  intros Hb Hbe He. unfold Js.slice.
  destruct (Z.ltb_spec b 0); [lia|]. destruct (Z.ltb_spec e 0); [lia|].
  rewrite !Z.min_l by lia. rewrite Z.max_l by lia.
  rewrite length_firstn, length_skipn. lia.
Qed.

Lemma length_range (b e : Z) : List.length (Js.range b e) = Z.to_nat (e - b).
Proof. unfold Js.range. now rewrite length_map, length_seq. Qed.

Lemma nth_error_range (b e : Z) (j : nat) :
  (j < Z.to_nat (e - b))%nat ->
  nth_error (Js.range b e) j = Some (b + Z.of_nat j).
Proof.
  intros Hj. unfold Js.range. rewrite nth_error_map, nth_error_seq.
  destruct (Nat.ltb_spec j (Z.to_nat (e - b))); [reflexivity|lia].
Qed.

(** X1. The rendered window has [visibleCount] rows, or all the rows when
    there are fewer. *)
Theorem window_size (scrollOffset total : Z) :
  0 <= scrollOffset -> 0 <= total ->
  windowEnd scrollOffset total - windowStart scrollOffset total
  = Z.min visibleCount total.
Proof.
  intros Hs Ht.
  assert (Hq : 0 <= scrollOffset / ROW_HEIGHT)
    by (unfold ROW_HEIGHT; apply Z.div_pos; lia).
  unfold windowEnd, windowStart, Js.floorDiv.
  rewrite Window.visibleCount_value. lia.
Qed.

(** X2. Every row that lies in the viewport (the row at the scroll offset
    and the [viewportRows - 1] rows below it, as far as they exist) is
    inside the rendered window. *)
Theorem viewport_inside_window (scrollOffset total i : Z) :
  0 <= scrollOffset -> 0 <= total ->
  scrollOffset / ROW_HEIGHT <= i < scrollOffset / ROW_HEIGHT + viewportRows ->
  i < total ->
  windowStart scrollOffset total <= i < windowEnd scrollOffset total.
Proof.
  intros Hs Ht Hi Hlt.
  assert (Hq : 0 <= scrollOffset / ROW_HEIGHT)
    by (unfold ROW_HEIGHT; apply Z.div_pos; lia).
  assert (Hv : viewportRows = 15) by reflexivity. rewrite Hv in Hi.
  unfold windowEnd, windowStart, Js.floorDiv.
  rewrite Window.visibleCount_value. lia.
Qed.

(** X3. The two spacers and the rows of the window together are as high
    as all the rows: the scroll height does not depend on the scroll
    offset. Neither spacer has a negative height. *)
Theorem scroll_height (s : State) :
  0 <= scrollTop s ->
  spacerTop s + (endIndex s - startIndex s) * ROW_HEIGHT + spacerBottom s
  = totalRows s * ROW_HEIGHT /\
  0 <= spacerTop s /\ 0 <= spacerBottom s.
Proof.
  intros Hs. destruct (Window.render_window_bounds s Hs) as [[H0 H1] H2].
  unfold spacerTop, spacerBottom, ROW_HEIGHT. lia.
Qed.

Lemma normal_window_length (s : State) :
  isFiltering s = false -> 0 <= scrollTop s ->
  endIndex s - startIndex s = visibleCount.
Proof.
  intros Hf Hs. unfold endIndex, startIndex, totalRows. rewrite Hf.
  assert (Hq : 0 <= scrollTop s / ROW_HEIGHT)
    by (unfold ROW_HEIGHT; apply Z.div_pos; lia).
  unfold windowEnd, windowStart, Js.floorDiv, TOTAL_ROWS.
  rewrite Window.visibleCount_value. lia.
Qed.

(** X4. In Normal mode the window has exactly [visibleCount] entries; the
    entry at position [j] stands for the absolute index [startIndex + j],
    which is below [TOTAL_ROWS]: the row stored there, or a skeleton when
    the slot is a hole. *)
Theorem normal_window_entries (s : State) (j : Z) :
  isFiltering s = false -> 0 <= scrollTop s -> 0 <= j < visibleCount ->
  List.length (visibleRows s) = Z.to_nat visibleCount /\
  startIndex s + j < TOTAL_ROWS /\
  nth_error (visibleRows s) (Z.to_nat j)
  = Some (match Js.get (data s) (startIndex s + j) with
          | Some row => RowEntry (startIndex s + j) row
          | None => Skeleton (startIndex s + j)
          end).
Proof.
  intros Hf Hs Hj.
  pose proof (normal_window_length s Hf Hs) as Hlen.
  destruct (Window.render_window_bounds s Hs) as [[H0 H1] H2].
  assert (Ht : totalRows s = TOTAL_ROWS) by (unfold totalRows; now rewrite Hf).
  unfold visibleRows. rewrite Hf.
  split; [now rewrite length_map, length_range, Hlen|].
  split; [lia|].
  rewrite nth_error_map, nth_error_range by lia.
  cbn [option_map]. now rewrite Z2Nat.id by lia.
Qed.

(** X5. In Filtering mode, when nothing matches the window is the single
    "no results" entry (there [endIndex - startIndex] is 0); otherwise the
    window has [endIndex - startIndex] entries, at least one, and the entry
    at position [j] is the match at position [startIndex + j] of the
    compact sequence, keyed by its id. *)
Theorem filtering_window_entries (s : State) :
  isFiltering s = true -> 0 <= scrollTop s ->
  (processedData s = [] ->
     visibleRows s = [NoResults] /\ endIndex s - startIndex s = 0) /\
  (processedData s <> [] ->
     0 < endIndex s - startIndex s /\
     List.length (visibleRows s) = Z.to_nat (endIndex s - startIndex s) /\
     forall j, 0 <= j < endIndex s - startIndex s ->
       exists row,
         nth_error (processedData s) (Z.to_nat (startIndex s + j)) = Some row /\
         nth_error (visibleRows s) (Z.to_nat j) = Some (RowEntry (id row) row)).
Proof.
  intros Hf Hs.
  destruct (Window.render_window_bounds s Hs) as [[H0 H1] H2].
  assert (Ht : totalRows s = Z.of_nat (List.length (processedData s)))
    by (unfold totalRows; now rewrite Hf).
  split.
  - intros He. rewrite He in Ht. cbn in Ht. split; [|lia].
    unfold visibleRows. now rewrite Hf, He, Window.slice_nil.
  - intros Hne.
    assert (Hpos : 0 < totalRows s)
      by (rewrite Ht; destruct (processedData s); [congruence|cbn; lia]).
    assert (Hsize : 0 < endIndex s - startIndex s).
    { assert (Hq : 0 <= scrollTop s / ROW_HEIGHT)
        by (unfold ROW_HEIGHT; apply Z.div_pos; lia).
      revert Hpos. unfold endIndex, startIndex, windowEnd, windowStart, Js.floorDiv.
      rewrite Window.visibleCount_value. lia. }
    rewrite Ht in H2.
    assert (Hl : List.length (Js.slice (processedData s) (startIndex s) (endIndex s))
                 = Z.to_nat (endIndex s - startIndex s))
      by (apply length_slice; lia).
    assert (Hv : visibleRows s
                 = map (fun row => RowEntry (id row) row)
                       (Js.slice (processedData s) (startIndex s) (endIndex s))).
    { unfold visibleRows. rewrite Hf, Hl.
      destruct (Z.eqb_spec (Z.of_nat (Z.to_nat (endIndex s - startIndex s))) 0);
        [lia|reflexivity]. }
    split; [exact Hsize|]. split; [now rewrite Hv, length_map|].
    intros j Hj.
    destruct (nth_error (processedData s) (Z.to_nat (startIndex s + j)))
      as [row|] eqn:En.
    + exists row. split; [reflexivity|].
      rewrite Hv, nth_error_map, nth_error_slice by lia.
      replace (Z.to_nat (startIndex s) + Z.to_nat j)%nat
        with (Z.to_nat (startIndex s + j)) by lia.
      now rewrite En.
    + apply nth_error_None in En. lia.
Qed.

Lemma numberToString_not_s (n : Z) (x : string) :
  Js.numberToString n <> String "s" x.
Proof.
  unfold Js.numberToString. intros E.
  assert (Hnn : Z.to_int n <> Decimal.Pos Decimal.Nil /\
                Z.to_int n <> Decimal.Neg Decimal.Nil).
  { destruct n as [|p|p]; simpl; split; try discriminate;
      intros [= H]; now apply DecimalPos.Unsigned.to_uint_nonnil in H. }
  pose proof (NilZero.isi (Z.to_int n) (proj1 Hnn) (proj2 Hnn)) as Hi.
  rewrite E in Hi. cbn in Hi.
  destruct (NilEmpty.uint_of_string x); discriminate.
Qed.

Lemma NoDup_map_on {A B : Type} (f : A -> B) (l : list A) :
  (forall x y, In x l -> In y l -> f x = f y -> x = y) ->
  NoDup l -> NoDup (map f l).
Proof.
  intros Hinj Hn. induction Hn as [|x t Hx Ht IH]; simpl; constructor.
  - intros Hin. apply in_map_iff in Hin. destruct Hin as (y & E & Hy).
    apply Hx. rewrite (Hinj x y); [exact Hy|now left|now right|now symmetry].
  - apply IH. intros a b Ha Hb. apply Hinj; now right.
Qed.

Lemma NoDup_range (b e : Z) : NoDup (Js.range b e).
Proof.
  unfold Js.range. apply NoDup_map_on; [|apply seq_NoDup].
  intros x y _ _ E. lia.
Qed.

(** X6. In Normal mode no two rows of the window carry the same React
    key, whatever is loaded. *)
Theorem normal_keys_distinct (s : State) :
  isFiltering s = false -> NoDup (map entryKey (visibleRows s)).
Proof.
  intros Hf. unfold visibleRows. rewrite Hf. rewrite map_map.
  apply NoDup_map_on; [|apply NoDup_range].
  intros x y _ _.
  destruct (Js.get (data s) x), (Js.get (data s) y); cbn [entryKey]; intros E.
  - now apply StringFacts.numberToString_inj.
  - now apply numberToString_not_s in E.
  - symmetry in E. now apply numberToString_not_s in E.
  - injection E as E. now apply StringFacts.numberToString_inj.
Qed.

End WindowMore.

(** ** More on fetching *)

Module SchedulerMore.
Import App Render Props JsFacts.

Lemma nextBatchStart_after (r : Z) :
  r < nextBatchStart r /\ nextBatchStart r mod BATCH_SIZE = 0.
Proof.
  unfold nextBatchStart, Js.floorDiv, BATCH_SIZE.
  pose proof (Z.div_mod r 200 ltac:(lia)) as Hd.
  pose proof (Z.mod_pos_bound r 200 ltac:(lia)) as Hm.
  split; [lia|].
  replace (r / 200 * 200 + 200) with ((r / 200 + 1) * 200) by lia.
  apply Z.mod_mul. lia.
Qed.

(** X7. The start of the next batch is the first multiple of [BATCH_SIZE]
    above the current row, at most [BATCH_SIZE] rows away; it is within
    [PREFETCH_THRESHOLD] rows exactly when the current row is among the
    last [PREFETCH_THRESHOLD] rows of its batch. *)
Theorem nextBatchStart_bounds (r : Z) :
  r < nextBatchStart r <= r + BATCH_SIZE /\
  nextBatchStart r mod BATCH_SIZE = 0 /\
  (nextBatchStart r - r <= PREFETCH_THRESHOLD
   <-> BATCH_SIZE - PREFETCH_THRESHOLD <= r mod BATCH_SIZE).
Proof.
  destruct (nextBatchStart_after r) as [Ha Hm].
  split; [|split; [exact Hm|]];
    unfold nextBatchStart, Js.floorDiv, BATCH_SIZE, PREFETCH_THRESHOLD in *;
    pose proof (Z.div_mod r 200 ltac:(lia)) as Hd;
    pose proof (Z.mod_pos_bound r 200 ltac:(lia)) as Hb; lia.
Qed.

(** X8. Whatever the scroll handler fetches lies inside the dataset: when
    a scroll to a non-negative offset starts a fetch, it is the fetch of
    one whole batch that begins on a batch boundary after the current row,
    no more than [PREFETCH_THRESHOLD] rows ahead, and ends at or before
    [TOTAL_ROWS]. *)
Theorem prefetch_inside_dataset (st : Z) (s : State) :
  0 <= st -> started (handleScroll st s) <> started s ->
  exists a,
    started (handleScroll st s) = started s ++ [(a, BATCH_SIZE)] /\
    a mod BATCH_SIZE = 0 /\
    st / ROW_HEIGHT < a <= st / ROW_HEIGHT + PREFETCH_THRESHOLD /\
    BATCH_SIZE <= a /\ a + BATCH_SIZE <= TOTAL_ROWS.
Proof.
  intros Hst Hne.
  destruct (Scheduler.handleScroll_cases st s)
    as [(_ & _ & Hl & Hlt & Hth & _ & E)|[_ E]];
    [|rewrite E in Hne; now contradiction Hne].
  exists (nextBatchStart (st / ROW_HEIGHT)).
  destruct (nextBatchStart_after (st / ROW_HEIGHT)) as (Hb & Hm).
  change (st / ROW_HEIGHT / BATCH_SIZE * BATCH_SIZE + BATCH_SIZE)
    with (nextBatchStart (st / ROW_HEIGHT)) in *.
  split; [|split; [exact Hm|]].
  - rewrite E. unfold fetchBatch. cbn [loading setScrollTop]. now rewrite Hl.
  - assert (Hq : 0 <= st / ROW_HEIGHT)
      by (unfold ROW_HEIGHT; apply Z.div_pos; lia).
    apply Z.mod_divide in Hm; [|unfold BATCH_SIZE; lia].
    destruct Hm as [k Hk]. unfold BATCH_SIZE, TOTAL_ROWS, PREFETCH_THRESHOLD in *.
    lia.
Qed.

(** X9. A scroll event records the offset and touches neither the store
    nor the filter, the sort or [hasMore]; in Filtering mode it starts no
    fetch either. *)
Theorem scroll_frame (st : Z) (s : State) :
  scrollTop (handleScroll st s) = st /\
  data (handleScroll st s) = data s /\
  filter (handleScroll st s) = filter s /\
  sortConfig (handleScroll st s) = sortConfig s /\
  hasMore (handleScroll st s) = hasMore s /\
  (isFiltering s = true ->
     loading (handleScroll st s) = loading s /\
     timers (handleScroll st s) = timers s /\
     started (handleScroll st s) = started s).
Proof.
  destruct (Scheduler.handleScroll_cases st s)
    as [(Hf & _ & Hl & _ & _ & _ & E)|[_ E]]; rewrite E.
  - unfold fetchBatch. cbn [loading setScrollTop]. rewrite Hl.
    repeat split; try reflexivity; congruence.
  - repeat split; reflexivity.
Qed.

Lemma timerFires_hasMore (s : State) :
  hasMore s = false -> hasMore (timerFires s) = false.
Proof.
  intros H. unfold timerFires. destruct (timers s) as [|[a c] rest]; [exact H|].
  cbn [fetchDone hasMore setTimers]. rewrite H. now destruct (a + c >=? TOTAL_ROWS).
Qed.

(** X10. [hasMore] never comes back: once it is false it is false after
    every further sequence of events. *)
Theorem hasMore_stays_false (localeCompare : string -> string -> Z)
    (es : list Event) (s : State) :
  hasMore s = false -> hasMore (run localeCompare es s) = false.
Proof.
  intros H.
  apply (Scheduler.run_invariant localeCompare (fun s => hasMore s = false));
    [exact H|].
  intros e s' H'. destruct e as [st|v|k|]; cbn [step].
  - destruct (Scheduler.handleScroll_cases st s')
      as [(_ & Hm & _)|[_ E]]; [congruence|now rewrite E].
  - exact H'.
  - exact H'.
  - now apply timerFires_hasMore.
Qed.

(** *** The store under a completed fetch *)

Lemma placeRows_outside (rows : list Row) :
  forall a i copy k,
    k < a + i \/ a + i + Z.of_nat (List.length rows) <= k ->
    Js.get (placeRows a i rows copy) k = Js.get copy k.
Proof.
  induction rows as [|row rest IH]; intros a i copy k Hk; [reflexivity|].
  cbn [placeRows]. cbn [List.length] in Hk. rewrite IH by lia.
  apply get_set_other. lia.
Qed.

Lemma setNat_length {A : Type} (n : nat) (x : A) (arr : list (option A)) :
  List.length (Js.setNat n x arr) = Nat.max (List.length arr) (S n).
Proof.
  revert arr; induction n as [|n IH]; intros [|y t]; simpl; try reflexivity.
  - lia.
  - rewrite (IH []). simpl. lia.
  - now rewrite IH.
Qed.

Lemma placeRows_length (rows : list Row) :
  forall a i copy, 0 <= a + i -> rows <> [] ->
    Z.of_nat (List.length (placeRows a i rows copy))
    = Z.max (Z.of_nat (List.length copy)) (a + i + Z.of_nat (List.length rows)).
Proof.
  induction rows as [|row rest IH]; intros a i copy Hai Hne; [congruence|].
  cbn [placeRows List.length].
  assert (Hset : Z.of_nat (List.length (Js.set (a + i) row copy))
                 = Z.max (Z.of_nat (List.length copy)) (a + i + 1)).
  { unfold Js.set. destruct (Z.ltb_spec (a + i) 0); [lia|].
    rewrite setNat_length. lia. }
  destruct rest as [|row' rest'].
  - cbn [placeRows List.length]. rewrite Hset. lia.
  - rewrite IH by (try lia; discriminate). rewrite Hset.
    cbn [List.length]. lia.
Qed.

Lemma fetchDone_lookup (a c : Z) (s : State) (j : Z) :
  0 <= a ->
  Js.get (data (fetchDone a c s)) j
  = if (a <=? j) && (j <? a + c) then Some (newRow a (j - a))
    else Js.get (data s) j.
Proof.
  intros Ha.
  destruct (Z.leb_spec a j) as [H1|H1]; cbn [andb];
    [destruct (Z.ltb_spec j (a + c)) as [H2|H2]|].
  - replace j with (a + (j - a)) at 1 by lia.
    apply Scheduler.fetchDone_get; lia.
  - cbn [fetchDone data]. apply placeRows_outside.
    rewrite Scheduler.newRows_length. lia.
  - cbn [fetchDone data]. apply placeRows_outside. lia.
Qed.

Lemma fetchDone_length (a c : Z) (s : State) :
  0 <= a -> 0 < c ->
  Z.of_nat (List.length (data (fetchDone a c s)))
  = Z.max (Z.of_nat (List.length (data s))) (a + c).
Proof.
  intros Ha Hc. cbn [fetchDone data]. rewrite placeRows_length.
  - rewrite Scheduler.newRows_length. lia.
  - lia.
  - intros E. apply (f_equal (@List.length _)) in E.
    rewrite Scheduler.newRows_length in E. cbn in E. lia.
Qed.

(** X11. A completed fetch of [(a, c)] determines the whole store: the
    slots [a .. a+c-1] hold the new rows, every other slot is as before,
    and the array is as long as before or reaches up to [a + c]. *)
Theorem fetch_completion_store (a c : Z) (s : State) :
  0 <= a -> 0 < c ->
  (forall j, a <= j < a + c ->
     Js.get (data (fetchDone a c s)) j = Some (newRow a (j - a))) /\
  (forall j, j < a \/ a + c <= j ->
     Js.get (data (fetchDone a c s)) j = Js.get (data s) j) /\
  Z.of_nat (List.length (data (fetchDone a c s)))
  = Z.max (Z.of_nat (List.length (data s))) (a + c).
Proof.
  intros Ha Hc. split; [|split].
  - intros j Hj. rewrite fetchDone_lookup by exact Ha.
    destruct (Z.leb_spec a j); [|lia]. destruct (Z.ltb_spec j (a + c)); [|lia].
    reflexivity.
  - intros j Hj. rewrite fetchDone_lookup by exact Ha.
    destruct (Z.leb_spec a j); [|reflexivity].
    destruct (Z.ltb_spec j (a + c)); [lia|reflexivity].
  - now apply fetchDone_length.
Qed.

Lemma array_ext {A : Type} (l1 l2 : list (option A)) :
  List.length l1 = List.length l2 ->
  (forall n, Js.getNat l1 n = Js.getNat l2 n) -> l1 = l2.
Proof.
  revert l2; induction l1 as [|x t IH]; intros [|y u] Hl Hg;
    try discriminate; [reflexivity|].
  f_equal.
  - specialize (Hg O). unfold Js.getNat in Hg. cbn in Hg.
    destruct x, y; congruence.
  - apply IH; [now injection Hl|]. intros n. apply (Hg (S n)).
Qed.

Lemma get_getNat {A : Type} (arr : list (option A)) (n : nat) :
  Js.get arr (Z.of_nat n) = Js.getNat arr n.
Proof.
  unfold Js.get. destruct (Z.ltb_spec (Z.of_nat n) 0); [lia|].
  now rewrite Nat2Z.id.
Qed.

Lemma state_ext (s1 s2 : State) :
  data s1 = data s2 -> loading s1 = loading s2 -> hasMore s1 = hasMore s2 ->
  scrollTop s1 = scrollTop s2 -> filter s1 = filter s2 ->
  sortConfig s1 = sortConfig s2 -> timers s1 = timers s2 ->
  started s1 = started s2 -> s1 = s2.
Proof. destruct s1, s2; cbn. now intros -> -> -> -> -> -> -> ->. Qed.

(** X12. Completing the same fetch a second time changes nothing: the
    rows written are a function of the range alone. *)
Theorem fetch_completion_idempotent (a c : Z) (s : State) :
  0 <= a ->
  fetchDone a c (fetchDone a c s) = fetchDone a c s.
Proof.
  intros Ha.
  assert (Hd : data (fetchDone a c (fetchDone a c s)) = data (fetchDone a c s)).
  { destruct (Z.ltb_spec 0 c) as [Hc|Hc].
    - apply array_ext.
      + apply Nat2Z.inj. rewrite !fetchDone_length by assumption. lia.
      + intros n. rewrite <- !get_getNat.
        rewrite (fetchDone_lookup a c (fetchDone a c s)) by exact Ha.
        rewrite (fetchDone_lookup a c s) by exact Ha.
        now destruct ((a <=? Z.of_nat n) && (Z.of_nat n <? a + c)).
    - cbn [fetchDone data]. unfold newRows.
      replace (Z.to_nat c) with O by lia. reflexivity. }
  apply state_ext; try reflexivity; [exact Hd|].
  cbn [fetchDone hasMore]. now destruct (a + c >=? TOTAL_ROWS).
Qed.

(** *** Loaded rows are kept *)

Lemma get_set_filled {A : Type} (i : Z) (x : A) (arr : list (option A)) (k : Z) :
  Js.get arr k <> None -> Js.get (Js.set i x arr) k <> None.
Proof.
  intros H. destruct (Z.eq_dec i k) as [->|Hne].
  - unfold Js.get, Js.set in *. destruct (Z.ltb_spec k 0); [exact H|].
    rewrite getNat_setNat_same. discriminate.
  - now rewrite get_set_other.
Qed.

Lemma placeRows_filled (rows : list Row) :
  forall a i copy k, Js.get copy k <> None ->
    Js.get (placeRows a i rows copy) k <> None.
Proof.
  induction rows as [|row rest IH]; intros a i copy k H; [exact H|].
  cbn [placeRows]. apply IH. now apply get_set_filled.
Qed.

Lemma present_setNat_length {A : Type} (n : nat) (x : A) (arr : list (option A)) :
  (List.length (Js.present arr) <= List.length (Js.present (Js.setNat n x arr)))%nat.
Proof.
  revert arr; induction n as [|n IH]; intros [|y t]; simpl; try lia.
  - destruct y; simpl; lia.
  - specialize (IH t). destruct y; simpl; lia.
Qed.

Lemma present_placeRows_length (rows : list Row) :
  forall a i copy,
    (List.length (Js.present copy)
     <= List.length (Js.present (placeRows a i rows copy)))%nat.
Proof.
  induction rows as [|row rest IH]; intros a i copy; [cbn; lia|].
  cbn [placeRows]. eapply Nat.le_trans; [|apply IH].
  unfold Js.set. destruct (a + i <? 0); [lia|apply present_setNat_length].
Qed.

Lemma length_placeRows_le (rows : list Row) :
  forall a i copy,
    (List.length copy <= List.length (placeRows a i rows copy))%nat.
Proof.
  induction rows as [|row rest IH]; intros a i copy; [cbn; lia|].
  cbn [placeRows]. eapply Nat.le_trans; [|apply IH].
  unfold Js.set. destruct (a + i <? 0); [lia|].
  rewrite setNat_length. lia.
Qed.

Section Kept.
Variable localeCompare : string -> string -> Z.

Lemma step_counts (e : Event) (s : State) :
  (List.length (loadedRows s)
   <= List.length (loadedRows (step localeCompare e s)))%nat /\
  (List.length (data s) <= List.length (data (step localeCompare e s)))%nat.
Proof.
  destruct e as [st|v|k|]; cbn [step].
  - assert (E : data (handleScroll st s) = data s).
    { destruct (Scheduler.handleScroll_cases st s)
        as [(_ & _ & Hl & _ & _ & _ & E)|[_ E]]; rewrite E; [|reflexivity].
      unfold fetchBatch. cbn [loading setScrollTop]. now rewrite Hl. }
    unfold loadedRows. rewrite E. lia.
  - unfold loadedRows. cbn [filterChange data]. lia.
  - split.
    + rewrite (Permutation_length (Sorting.toggleSort_loaded localeCompare k s)). lia.
    + cbn [toggleSort data]. rewrite sortSparse_length. lia.
  - unfold timerFires. destruct (timers s) as [|[a c] rest]; [lia|].
    unfold loadedRows. cbn [fetchDone data setTimers]. split.
    + apply present_placeRows_length.
    + apply length_placeRows_le.
Qed.

(** X13. No sequence of events makes the store lose rows or shrink: the
    number of loaded rows and the length of the array never decrease. *)
Theorem store_never_shrinks (es : list Event) (s : State) :
  (List.length (loadedRows s)
   <= List.length (loadedRows (run localeCompare es s)))%nat /\
  (List.length (data s) <= List.length (data (run localeCompare es s)))%nat.
Proof.
  apply (Scheduler.run_invariant localeCompare
           (fun s' => (List.length (loadedRows s) <= List.length (loadedRows s'))%nat /\
                      (List.length (data s) <= List.length (data s'))%nat)).
  - split; lia.
  - intros e s' [H1 H2]. destruct (step_counts e s') as [H3 H4]. split; lia.
Qed.

Lemma step_filled (e : Event) (s : State) (i : Z) :
  match e with HeaderClick _ => False | _ => True end ->
  Js.get (data s) i <> None -> Js.get (data (step localeCompare e s)) i <> None.
Proof.
  intros He H. destruct e as [st|v|k|]; cbn [step]; [| |contradiction|].
  - replace (data (handleScroll st s)) with (data s); [exact H|].
    destruct (Scheduler.handleScroll_cases st s)
      as [(_ & _ & Hl & _ & _ & _ & E)|[_ E]]; rewrite E; [|reflexivity].
    unfold fetchBatch. cbn [loading setScrollTop]. now rewrite Hl.
  - exact H.
  - unfold timerFires. destruct (timers s) as [|[a c] rest]; [exact H|].
    cbn [fetchDone data setTimers]. now apply placeRows_filled.
Qed.

(** X14. Short of a click on a column header, a slot that holds a row
    holds a row for good: scrolling, typing in the filter box and fetch
    completions never turn a loaded slot back into a hole. *)
Theorem filled_slot_stays_filled (es : list Event) (s : State) (i : Z) :
  NoHeaderClick es -> Js.get (data s) i <> None ->
  Js.get (data (run localeCompare es s)) i <> None.
Proof.
  intros Hes H. induction es as [|e es IH] using rev_ind; [exact H|].
  unfold NoHeaderClick in Hes. apply Forall_app in Hes. destruct Hes as [Hes He].
  rewrite (Scheduler.run_snoc localeCompare). apply step_filled.
  - now inversion He.
  - now apply IH.
Qed.

End Kept.

End SchedulerMore.

(** ** More on sorting and filtering *)

Module SortingMore.
Import App Render Spec Props JsFacts StringFacts.

(** *** The store after a click *)

Lemma getNat_compacted {A : Type} (l : list A) (m : nat) (n : nat) :
  Js.getNat (map Some l ++ repeat None m) n = nth_error l n.
Proof.
  unfold Js.getNat. destruct (Nat.ltb_spec n (List.length l)) as [H|H].
  - rewrite nth_error_app1 by now rewrite length_map.
    rewrite nth_error_map. now destruct (nth_error l n).
  - rewrite nth_error_app2 by now rewrite length_map.
    apply nth_error_None in H. rewrite H.
    destruct (nth_error (repeat None m) _) as [o|] eqn:E; [|reflexivity].
    apply nth_error_In, repeat_spec in E. now subst o.
Qed.

Section Click.
Variable localeCompare : string -> string -> Z.
Local Abbreviation toggleSort := (App.toggleSort localeCompare).

(** X15. A click on a header compacts the store: afterwards the slots
    below the number of loaded rows all hold rows and every slot from there
    on is a hole; the array keeps its length, the rows are the same rows,
    and nothing but the store and the sort configuration changes. *)
Theorem click_compacts_store (k : Key) (s : State) (i : Z) :
  let n := Z.of_nat (List.length (loadedRows s)) in
  (0 <= i < n -> Js.get (data (toggleSort k s)) i <> None) /\
  (n <= i -> Js.get (data (toggleSort k s)) i = None) /\
  List.length (data (toggleSort k s)) = List.length (data s) /\
  Permutation (loadedRows s) (loadedRows (toggleSort k s)) /\
  loading (toggleSort k s) = loading s /\
  hasMore (toggleSort k s) = hasMore s /\
  timers (toggleSort k s) = timers s /\
  scrollTop (toggleSort k s) = scrollTop s /\
  filter (toggleSort k s) = filter s.
Proof.
  intros n. subst n.
  pose proof (Sorting.toggleSort_loaded localeCompare k s) as Hp.
  pose proof (Permutation_length Hp) as Hl.
  split; [|split; [|split; [|split; [exact Hp|repeat split]]]].
  - intros Hi. rewrite Sorting.toggleSort_compacts. unfold Js.get.
    destruct (Z.ltb_spec i 0); [lia|]. rewrite getNat_compacted.
    apply nth_error_Some. lia.
  - intros Hi. rewrite Sorting.toggleSort_compacts. unfold Js.get.
    destruct (Z.ltb_spec i 0); [reflexivity|]. rewrite getNat_compacted.
    apply nth_error_None. lia.
  - cbn [App.toggleSort data]. apply sortSparse_length.
Qed.

Lemma toggleCompare_consistent (k : Key) (d : Direction) :
  Collates localeCompare ->
  Js.Consistent
    (fun a b => toggleCompare localeCompare k d (Some a) (Some b))
    (fun _ => True).
Proof.
  intros [Htot Htr]. split.
  - intros a b _ _. unfold Js.before. destruct k, d; cbn; try lia; apply Htot.
  - intros a b c _ _ _. unfold Js.before. destruct k, d; cbn; try lia;
      intros H1 H2; eapply Htr; eassumption.
Qed.

(** X16. With a collation that is a total preorder, a click on column [k]
    leaves the loaded rows of the store sorted by the comparator of
    [toggleSort] for [k] and the direction the sort had before the
    click. *)
Theorem click_sorts_store (k : Key) (s : State) :
  Collates localeCompare ->
  StronglySorted
    (fun a b => toggleCompare localeCompare k (direction (sortConfig s))
                  (Some a) (Some b) <= 0)
    (loadedRows (toggleSort k s)).
Proof.
  intros Hc. unfold loadedRows. cbn [App.toggleSort data].
  rewrite sortSparse_present.
  apply (sortBy_sorted _ (fun _ => True)).
  - now apply toggleCompare_consistent.
  - apply Sorting.Forall_True.
Qed.

(** X21. The header arrows. Whatever the sort configuration, the active
    column and no other shows an arrow; after a click on column [k] it is
    [k] that shows one, pointing down when [k] was active and ascending and
    up otherwise. *)
Theorem header_arrows (k col : Key) (s : State) :
  (forall cfg, sortIndicator col cfg = NoArrow <-> key cfg <> col) /\
  (col <> k -> sortIndicator col (sortConfig (toggleSort k s)) = NoArrow) /\
  (sortConfig s = mkSort k Asc ->
     sortIndicator k (sortConfig (toggleSort k s)) = DownArrow) /\
  (sortConfig s <> mkSort k Asc ->
     sortIndicator k (sortConfig (toggleSort k s)) = UpArrow).
Proof.
  split; [|split; [|split]].
  - intros cfg. unfold sortIndicator.
    destruct (keyEq (key cfg) col) eqn:E; cbn [negb].
    + apply Sorting.keyEq_spec in E.
      split; [destruct (isAsc (direction cfg)); discriminate|congruence].
    + split; [|reflexivity]. intros _ H. apply Sorting.keyEq_spec in H. congruence.
  - intros Hne. cbn [App.toggleSort sortConfig]. unfold sortIndicator, nextSortConfig.
    cbn [key]. destruct (keyEq k col) eqn:E; [|reflexivity].
    apply Sorting.keyEq_spec in E. congruence.
  - intros Hc. cbn [App.toggleSort sortConfig]. rewrite Hc, Sorting.nextSortConfig_flip.
    unfold sortIndicator. cbn [key direction isAsc].
    now rewrite (proj2 (Sorting.keyEq_spec k k) eq_refl).
  - intros Hc. cbn [App.toggleSort sortConfig].
    rewrite Sorting.nextSortConfig_reset by exact Hc.
    unfold sortIndicator. cbn [key direction isAsc].
    now rewrite (proj2 (Sorting.keyEq_spec k k) eq_refl).
Qed.

End Click.

(** *** The compact sequence *)

Lemma filter_length_le {A : Type} (f : A -> bool) (l : list A) :
  (List.length (List.filter f l) <= List.length l)%nat.
Proof. induction l as [|x t IH]; simpl; [lia|]. destruct (f x); simpl; lia. Qed.

Lemma processedData_length_le (s : State) :
  (List.length (processedData s) <= List.length (loadedRows s))%nat.
Proof.
  unfold processedData. rewrite sortBy_length.
  destruct (Js.truthy _); [apply filter_length_le|lia].
Qed.

(** X17. In either mode [processedData] is sorted by the active key and
    direction, every row of it is a loaded row, and it has no more rows
    than are loaded; in Normal mode it has all of them. *)
Theorem processedData_of_loaded (s : State) :
  StronglySorted (ordered (sortConfig s)) (processedData s) /\
  (forall r, In r (processedData s) -> In (Some r) (data s)) /\
  (List.length (processedData s) <= List.length (loadedRows s))%nat /\
  (isFiltering s = false -> Permutation (loadedRows s) (processedData s)).
Proof.
  split; [apply Sorting.sortBy_processed_sorted|]. split; [|split].
  - intros r Hr. unfold processedData in Hr. apply sortBy_In in Hr.
    apply In_present.
    destruct (Js.truthy _); [apply filter_In in Hr; apply Hr|exact Hr].
  - apply processedData_length_le.
  - intros Hf. rewrite Sorting.isFiltering_truthy in Hf.
    unfold processedData. rewrite Hf. apply sortBy_perm.
Qed.

(** *** When the filter is active *)

Lemma HasInk_nil : ~ HasInk "".
Proof. intros (c & [] & _). Qed.

Lemma HasInk_cons (c : ascii) (s : string) :
  HasInk (String c s) <-> Js.isWhiteSpace c = false \/ HasInk s.
Proof.
  unfold HasInk. cbn [list_ascii_of_string]. split.
  - intros (d & [<-|Hd] & Hw); [now left|right; now exists d].
  - intros [Hw|(d & Hd & Hw)]; [exists c|exists d]; split; auto; now left + right.
Qed.

Lemma trimStart_ink (s : string) : HasInk (Js.trimStart s) <-> HasInk s.
Proof.
  induction s as [|c s IH]; [reflexivity|]. cbn [Js.trimStart].
  destruct (Js.isWhiteSpace c) eqn:Hw; [|reflexivity].
  rewrite IH, HasInk_cons. split; [now right|]. intros [H|H]; [congruence|exact H].
Qed.

Lemma trimEnd_ink (s : string) : Js.truthy (Js.trimEnd s) = true <-> HasInk s.
Proof.
  induction s as [|c s IH].
  - cbn. split; [discriminate|]. intros H. now apply HasInk_nil in H.
  - cbn [Js.trimEnd]. rewrite HasInk_cons.
    destruct (Js.trimEnd s) as [|d t].
    + cbn in IH. destruct (Js.isWhiteSpace c); cbn.
      * split; [discriminate|]. intros [H|H]; [discriminate|]. now apply IH in H.
      * split; [now left|reflexivity].
    + cbn. split; [intros _; right; now apply IH|reflexivity].
Qed.

(** X18. The mode is Filtering exactly when the filter text has a
    character that is not white space. *)
Theorem filtering_iff_ink (s : State) :
  isFiltering s = true <-> HasInk (filter s).
Proof.
  rewrite Sorting.isFiltering_truthy. unfold Js.trim.
  now rewrite trimEnd_ink, trimStart_ink.
Qed.

(** *** Letter case of the filter text *)

Lemma isWhiteSpace_lowerChar (c : ascii) :
  Js.isWhiteSpace (Js.lowerChar c) = Js.isWhiteSpace c.
Proof. destruct c as [[] [] [] [] [] [] [] []]; reflexivity. Qed.

Lemma toLowerCase_ink (s : string) : HasInk (Js.toLowerCase s) <-> HasInk s.
Proof.
  induction s as [|c s IH]; [reflexivity|].
  cbn [Js.toLowerCase]. now rewrite !HasInk_cons, isWhiteSpace_lowerChar, IH.
Qed.

Lemma truthy_trim_ink (v : string) : Js.truthy (Js.trim v) = true <-> HasInk v.
Proof. unfold Js.trim. now rewrite trimEnd_ink, trimStart_ink. Qed.

Lemma truthy_trim_case (v1 v2 : string) :
  Js.toLowerCase v1 = Js.toLowerCase v2 ->
  Js.truthy (Js.trim v1) = Js.truthy (Js.trim v2).
Proof.
  intros E.
  assert (H : HasInk v1 <-> HasInk v2)
    by now rewrite <- (toLowerCase_ink v1), <- (toLowerCase_ink v2), E.
  rewrite <- !truthy_trim_ink in H.
  destruct (Js.truthy (Js.trim v1)), (Js.truthy (Js.trim v2)); intuition congruence.
Qed.

(** X19. The filter ignores the letter case of the text typed: two texts
    that differ in letter case only select the same mode, the same compact
    sequence and the same rendered window. *)
Theorem filter_ignores_case (v1 v2 : string) (s : State) :
  Js.toLowerCase v1 = Js.toLowerCase v2 ->
  isFiltering (filterChange v1 s) = isFiltering (filterChange v2 s) /\
  processedData (filterChange v1 s) = processedData (filterChange v2 s) /\
  visibleRows (filterChange v1 s) = visibleRows (filterChange v2 s).
Proof.
  intros E.
  assert (Hf : isFiltering (filterChange v1 s) = isFiltering (filterChange v2 s))
    by (rewrite !Sorting.isFiltering_truthy; cbn [filterChange filter];
        now apply truthy_trim_case).
  assert (Hp : processedData (filterChange v1 s) = processedData (filterChange v2 s)).
  { unfold processedData, loadedRows. cbn [filterChange filter data sortConfig].
    now rewrite E, (truthy_trim_case v1 v2 E). }
  split; [exact Hf|]. split; [exact Hp|].
  unfold visibleRows, startIndex, endIndex, totalRows. rewrite Hf, Hp.
  reflexivity.
Qed.

(** *** Ascending and descending *)

Lemma StronglySorted_snoc {A : Type} (R : A -> A -> Prop) (l : list A) (x : A) :
  StronglySorted R l -> Forall (fun y => R y x) l -> StronglySorted R (l ++ [x]).
Proof.
  intros Hs. induction Hs as [|y t Ht IH Hy]; intros Hx; simpl.
  - repeat constructor.
  - inversion Hx as [|? ? Hyx Htx]; subst. constructor; [now apply IH|].
    apply Forall_app. split; [exact Hy|now constructor].
Qed.

Lemma StronglySorted_rev {A : Type} (R : A -> A -> Prop) (l : list A) :
  StronglySorted R l -> StronglySorted (fun a b => R b a) (rev l).
Proof.
  induction 1 as [|x t Ht IH Hx]; simpl; [constructor|].
  apply StronglySorted_snoc; [exact IH|].
  rewrite Forall_forall in *. intros y Hy. apply Hx. now apply in_rev.
Qed.

(** X20. For rows of the batch source, sorting descending gives the
    ascending sequence in reverse, on every column and under every filter
    text. *)
Theorem descending_is_reverse (k : Key) (s : State) :
  Forall fromSource (loadedRows s) ->
  processedData (withSort (mkSort k Desc) s)
  = rev (processedData (withSort (mkSort k Asc) s)).
Proof.
  intros Hsrc. pose proof (Sorting.source_rows_distinct k _ Hsrc) as Hd.
  unfold processedData, loadedRows. cbn [withSort data filter sortConfig].
  set (L := if Js.truthy (Js.trim (filter s))
            then List.filter (matches (Js.toLowerCase (filter s))) (Js.present (data s))
            else Js.present (data s)).
  assert (HL : forall r, In r L -> In r (loadedRows s)).
  { intros r Hr. subst L. unfold loadedRows.
    destruct (Js.truthy _); [apply filter_In in Hr; apply Hr|exact Hr]. }
  apply (sorted_perm_unique (processedCompare (mkSort k Desc))).
  - intros a b Ha Hb H1 H2. apply sortBy_In in Ha, Hb.
    apply Hd; [now apply HL|now apply HL|].
    apply Sorting.processedCompare_before in H1, H2.
    unfold ordered in H1, H2. cbn [direction key] in H1, H2.
    now apply Sorting.valueLe_antisym.
  - apply (sortBy_sorted _ (fun _ => True));
      [apply Sorting.processedCompare_consistent|apply Sorting.Forall_True].
  - apply (Sorting.StronglySorted_equiv
             (fun a b => ordered (mkSort k Asc) b a)).
    + intros a b H. apply Sorting.processedCompare_before. exact H.
    + apply StronglySorted_rev, Sorting.sortBy_processed_sorted.
  - eapply perm_trans; [apply Permutation_sym, sortBy_perm|].
    eapply perm_trans; [apply (sortBy_perm (processedCompare (mkSort k Asc)))|].
    apply Permutation_rev.
Qed.

End SortingMore.

(** ** More on executions *)

Module ExecutionsMore.
Import App Render Spec Props JsFacts.

Section Runs.
Variable localeCompare : string -> string -> Z.
Local Abbreviation run := (App.run localeCompare).
Local Abbreviation step := (App.step localeCompare).

Lemma run_InitialFetchOnly (es : list Event) : InitialFetchOnly (run es mounted).
Proof.
  apply Scheduler.run_invariant;
    [exact Scheduler.mounted_InitialFetchOnly|exact (Scheduler.step_InitialFetchOnly localeCompare)].
Qed.

Lemma step_scrollTop (e : Event) (s : State) :
  match e with Scroll st => 0 <= st | _ => True end ->
  0 <= scrollTop s -> 0 <= scrollTop (step e s).
Proof.
  intros He Hs. destruct e as [st|v|k|]; cbn [App.step].
  - destruct (Scheduler.handleScroll_cases st s)
      as [(_ & _ & Hl & _ & _ & _ & E)|[_ E]]; rewrite E; [|exact He].
    unfold fetchBatch. cbn [loading setScrollTop]. now rewrite Hl.
  - cbn. lia.
  - exact Hs.
  - unfold timerFires. now destruct (timers s) as [|[a c] rest].
Qed.

Lemma run_scrollTop (es : list Event) :
  NonNegScrolls es -> 0 <= scrollTop (run es mounted).
Proof.
  intros Hes. induction es as [|e es IH] using rev_ind; [cbn; lia|].
  unfold NonNegScrolls in Hes. apply Forall_app in Hes. destruct Hes as [Hes He].
  rewrite (Scheduler.run_snoc localeCompare). apply step_scrollTop.
  - now inversion He.
  - now apply IH.
Qed.

Lemma loaded_count (s : State) :
  InitialFetchOnly s ->
  (loading s = true /\ data s = []) \/
  (loading s = false /\ List.length (loadedRows s) = Z.to_nat TOTAL_ROWS /\
   List.length (data s) = Z.to_nat TOTAL_ROWS).
Proof.
  intros [_ [(Hl & _ & Hd)|(Hl & _ & _ & Hlen & Hp)]]; [left|right]; tauto.
Qed.

(** X22. In an execution whose scroll events carry offsets that are not
    negative, every render has a scroll offset that is not negative and a
    window with [0 <= startIndex <= endIndex <= totalRows], and the row
    count never exceeds [TOTAL_ROWS]. *)
Theorem renders_stay_in_bounds (es : list Event) :
  NonNegScrolls es ->
  let s := run es mounted in
  0 <= scrollTop s /\
  0 <= startIndex s <= endIndex s /\
  endIndex s <= totalRows s /\
  totalRows s <= TOTAL_ROWS.
Proof.
  intros Hes s. pose proof (run_scrollTop es Hes) as Hs. fold s in Hs.
  destruct (Window.render_window_bounds s Hs) as [H1 H2].
  split; [exact Hs|]. split; [exact H1|]. split; [exact H2|].
  unfold totalRows. destruct (isFiltering s); [|lia].
  pose proof (SortingMore.processedData_length_le s) as Hle.
  destruct (loaded_count s (run_InitialFetchOnly es)) as [[_ Hd]|(_ & Hn & _)].
  - unfold loadedRows in Hle. rewrite Hd in Hle. cbn in Hle. unfold TOTAL_ROWS. lia.
  - unfold TOTAL_ROWS in *. lia.
Qed.


(** *** React keys in Filtering mode *)








End Runs.

End ExecutionsMore.

(** ** The further properties at sample states *)

Module WitnessesMore.
Import App Render Spec Props Samples.

(** X1. A window in the middle of the full table, and one on three
    matches. *)
Lemma window_size_witness :
  windowEnd 4000 TOTAL_ROWS - windowStart 4000 TOTAL_ROWS = 20 /\
  windowEnd 0 3 - windowStart 0 3 = 3.
Proof.
  split.
  - apply (WindowMore.window_size 4000 TOTAL_ROWS); unfold TOTAL_ROWS; lia.
  - apply (WindowMore.window_size 0 3); lia.
Defined.

(** X2. Scrolled to the very end of the table, the last row is in the
    window. *)
Lemma viewport_inside_window_witness :
  windowStart 399400 TOTAL_ROWS <= 9999 < windowEnd 399400 TOTAL_ROWS.
Proof.
  apply (WindowMore.viewport_inside_window 399400 TOTAL_ROWS 9999).
  - lia.
  - unfold TOTAL_ROWS; lia.
  - vm_compute. split; [discriminate|reflexivity].
  - reflexivity.
Defined.

(** X3. The first batch loaded and the container scrolled to row 185. *)
Lemma scroll_height_witness :
  let s := setScrollTop 7400 firstBatchLoaded in
  spacerTop s + (endIndex s - startIndex s) * ROW_HEIGHT + spacerBottom s
  = 400000.
Proof.
  intros s.
  destruct (WindowMore.scroll_height s ltac:(cbn; lia)) as [H _].
  rewrite H. reflexivity.
Defined.

(** X4. Three rows loaded, Normal mode: the entry at position 2 is row 3
    and the entry at position 3 a skeleton. *)
Lemma normal_window_entries_witness :
  nth_error (visibleRows threeLoaded) 2 = Some (RowEntry 2 (newRow 0 2)) /\
  nth_error (visibleRows threeLoaded) 3 = Some (Skeleton 3).
Proof.
  split.
  - destruct (WindowMore.normal_window_entries threeLoaded 2
                eq_refl ltac:(cbn; lia) ltac:(vm_compute; split; [discriminate|reflexivity]))
      as (_ & _ & H).
    exact H.
  - destruct (WindowMore.normal_window_entries threeLoaded 3
                eq_refl ltac:(cbn; lia) ltac:(vm_compute; split; [discriminate|reflexivity]))
      as (_ & _ & H).
    exact H.
Defined.

(** X5. Fifty rows and the filter ["user1"]: eleven entries, the one at
    position 1 being the row with id 10; three rows and the filter
    ["zzz"]: the "no results" entry alone. *)
Lemma filtering_window_entries_witness :
  List.length (visibleRows user1Filter) = 11%nat /\
  nth_error (visibleRows user1Filter) 1 = Some (RowEntry 10 (newRow 0 9)) /\
  visibleRows noMatch = [NoResults].
Proof.
  destruct (WindowMore.filtering_window_entries user1Filter
              ltac:(vm_compute; reflexivity) ltac:(cbn; lia)) as [_ Hrows].
  destruct (Hrows ltac:(vm_compute; discriminate)) as (_ & Hlen & Hnth).
  destruct (WindowMore.filtering_window_entries noMatch
              ltac:(vm_compute; reflexivity) ltac:(cbn; lia)) as [Hnone _].
  split; [rewrite Hlen; vm_compute; reflexivity|]. split.
  - destruct (Hnth 1 ltac:(vm_compute; split; [discriminate|reflexivity]))
      as (row & Hrow & H).
    vm_compute in Hrow. injection Hrow as <-. exact H.
  - apply Hnone. vm_compute. reflexivity.
Defined.

(** X6. Three rows loaded, Normal mode. *)
Lemma normal_keys_distinct_witness :
  isFiltering threeLoaded = false /\
  NoDup (map entryKey (visibleRows threeLoaded)).
Proof.
  split; [reflexivity|].
  apply (WindowMore.normal_keys_distinct threeLoaded eq_refl).
Defined.

(** X8. The first batch loaded and a scroll to row 185: the fetch of
    [(200, 200)]. *)
Lemma prefetch_inside_dataset_witness :
  exists a,
    started (handleScroll 7400 firstBatchLoaded) = [(a, BATCH_SIZE)] /\
    a + BATCH_SIZE <= TOTAL_ROWS.
Proof.
  destruct (SchedulerMore.prefetch_inside_dataset 7400 firstBatchLoaded
              ltac:(lia) ltac:(vm_compute; discriminate))
    as (a & H1 & _ & _ & _ & H2).
  exists a. split; [exact H1|exact H2].
Defined.

(** X10. After the whole dataset has arrived, a scroll and a change of
    the filter. *)
Lemma hasMore_stays_false_witness :
  hasMore allLoaded = false /\
  hasMore (run codeUnitCollation [Scroll 7400; FilterInput "a"] allLoaded) = false.
Proof.
  split; [reflexivity|].
  apply (SchedulerMore.hasMore_stays_false codeUnitCollation _ allLoaded eq_refl).
Defined.

(** X11. The second batch written into a store that holds the first. *)
Lemma fetch_completion_store_witness :
  Js.get (data (fetchDone 200 200 firstBatchLoaded)) 250 = Some (newRow 200 50) /\
  Js.get (data (fetchDone 200 200 firstBatchLoaded)) 7
  = Js.get (data firstBatchLoaded) 7 /\
  Z.of_nat (List.length (data (fetchDone 200 200 firstBatchLoaded))) = 400.
Proof.
  destruct (SchedulerMore.fetch_completion_store 200 200 firstBatchLoaded
              ltac:(lia) ltac:(lia)) as (H1 & H2 & H3).
  split; [apply (H1 250); lia|]. split; [apply (H2 7); lia|].
  rewrite H3. vm_compute. reflexivity.
Defined.

(** X12. The first three rows written twice. *)
Lemma fetch_completion_idempotent_witness :
  fetchDone 0 3 threeLoaded = threeLoaded.
Proof.
  apply (SchedulerMore.fetch_completion_idempotent 0 3 initialState). lia.
Defined.

(** X14. Three rows loaded; a scroll, a filter text and a second fetch
    leave slot 1 filled. *)
Lemma filled_slot_stays_filled_witness :
  Js.get (data threeLoaded) 1 <> None /\
  Js.get (data (run codeUnitCollation
                  [Scroll 7400; FilterInput "x"; TimerFires] threeLoaded)) 1
  <> None.
Proof.
  assert (H : Js.get (data threeLoaded) 1 <> None) by (vm_compute; discriminate).
  split; [exact H|].
  apply (SchedulerMore.filled_slot_stays_filled codeUnitCollation _ threeLoaded 1);
    [|exact H].
  repeat constructor.
Defined.

Lemma codeUnitCollation_le (a b : string) :
  codeUnitCollation a b <= 0 <-> String.compare a b <> Gt.
Proof.
  unfold codeUnitCollation. destruct (String.compare a b); split; intros H;
    try lia; try discriminate; now contradiction H.
Qed.

Lemma codeUnitCollation_collates : Collates codeUnitCollation.
Proof.
  split.
  - intros a b. rewrite !codeUnitCollation_le. apply StringFacts.compare_le_total.
  - intros a b c. rewrite !codeUnitCollation_le. apply StringFacts.compare_le_trans.
Qed.

(** X16. Three rows, sorted on id ascending, and a click on the name
    header: the store is in ascending order of name. *)
Lemma click_sorts_store_witness :
  Collates codeUnitCollation /\
  StronglySorted
    (fun a b => toggleCompare codeUnitCollation KName Asc (Some a) (Some b) <= 0)
    (loadedRows (toggleSort codeUnitCollation KName threeLoaded)).
Proof.
  split; [exact codeUnitCollation_collates|].
  apply (SortingMore.click_sorts_store codeUnitCollation KName threeLoaded
           codeUnitCollation_collates).
Defined.

(** X19. The texts ["USER1"] and ["user1"] on fifty rows. *)
Lemma filter_ignores_case_witness :
  Js.toLowerCase "USER1" = Js.toLowerCase "user1" /\
  visibleRows (filterChange "USER1" fiftyLoaded)
  = visibleRows (filterChange "user1" fiftyLoaded).
Proof.
  split; [reflexivity|].
  destruct (SortingMore.filter_ignores_case "USER1" "user1" fiftyLoaded eq_refl)
    as (_ & _ & H).
  exact H.
Defined.

(** X20. Three rows and the email column. *)
Lemma descending_is_reverse_witness :
  Forall fromSource (loadedRows threeLoaded) /\
  map id (processedData (withSort (mkSort KEmail Desc) threeLoaded)) = [3; 2; 1] /\
  processedData (withSort (mkSort KEmail Desc) threeLoaded)
  = rev (processedData (withSort (mkSort KEmail Asc) threeLoaded)).
Proof.
  assert (Hs : Forall fromSource (loadedRows threeLoaded))
    by (vm_compute; repeat constructor).
  split; [exact Hs|]. split; [vm_compute; reflexivity|].
  apply (SortingMore.descending_is_reverse KEmail threeLoaded Hs).
Defined.

(** X22. A scroll far down, a filter text and the completion of the
    initial fetch. *)
Lemma renders_stay_in_bounds_witness :
  let s := run codeUnitCollation
             [Scroll 399990; FilterInput "user"; TimerFires] mounted in
  NonNegScrolls [Scroll 399990; FilterInput "user"; TimerFires] /\
  0 <= startIndex s <= endIndex s /\ endIndex s <= totalRows s.
Proof.
  intros s.
  assert (Hes : NonNegScrolls [Scroll 399990; FilterInput "user"; TimerFires])
    by (repeat constructor; lia).
  destruct (ExecutionsMore.renders_stay_in_bounds codeUnitCollation _ Hes)
    as (_ & H1 & H2 & _).
  split; [exact Hes|]. split; [exact H1|exact H2].
Defined.


End WitnessesMore.
